(** * BaseDecider: reception state machine and channel-sense handling

    A shallow embedding of [src/base/phyLayer/BaseDecider.cc] (MiXiM / Veins
    physical layer).  Every member function of the translation unit is a
    definition of the same name below; the decider's fields, the objects it
    reaches through pointers and the calls it makes on the physical layer are
    explicit state.

    Conventions.
    - [simtime_t] (OMNeT++'s fixed-point simulation time) is its raw value,
      the number of time ticks held in a signed 64-bit integer.  [+] on it is
      [simtime_add], the 64-bit sum with its wrap-around; [==] and [<=]
      compare the raw values.
    - [double] is a binary64 float ([PrimFloat]); [<] is [PrimFloat.ltb], so
      comparisons with NaN are false as in C++.
    - A pointer is an address ([N]), the null pointer is [0].  Air frames live
      in a read-only store of the physical layer, sense requests in a store
      that [setResult] updates.
    - [assert], [opp_error] and the dereference of a pointer with no object
      behind it end the run: the outcome is [Fatal].

    The decider is driven by a host, the physical layer with its scheduler,
    which is not in the sources: [Hosted], [hostStep] and [hostRun] state
    what the decider relies on from it, for the statements that are about
    whole runs with wake-ups.

    The second part, module [TraCI], embeds the functions of
    [TraCIScenarioManager.cc] that compute on strings, maps and coordinates. *)

From Stdlib Require Import ZArith List Bool Lia Floats Ascii String.
From stdpp Require Import gmap strings.
Import ListNotations.

Open Scope Z_scope.

(** ** Scalars and pointers *)

(** The raw value of a [SimTime]: an [int64]. *)
Definition simtime_t : Type := Z.

Definition INT64_MIN : Z := - 2 ^ 63.
Definition INT64_MAX : Z := 2 ^ 63 - 1.

(** The values an [int64] holds. *)
Definition representable (t : Z) : Prop := INT64_MIN <= t <= INT64_MAX.

(** The two's-complement value of the low 64 bits. *)
Definition wrap64 (z : Z) : Z := (z + 2 ^ 63) mod 2 ^ 64 - 2 ^ 63.

(** [SimTime::operator+]: the raw values are added as 64-bit integers. *)
Definition simtime_add (a b : simtime_t) : simtime_t := wrap64 (a + b).
Definition double : Type := float.
Definition ptr : Type := N.
Definition null : ptr := 0%N.

(** [DBL_MAX] of <float.h>. *)
Definition DBL_MAX : double := 0x1.fffffffffffffp+1023%float.

(** ** The Mapping library

    [Mapping], [ConstMapping] and [MappingUtils] are declared outside
    [BaseDecider.cc]; the decider uses exactly these operations on mappings
    over the time domain.  They are an interface here: the general
    statements about the decider hold for each implementation of it, and the
    example runs use the key-entry mappings of [TimeMapping]. *)

Class MappingUtils : Type := {
  Mapping : Type;
  (** [m->getValue(Argument(t))] *)
  getValue : Mapping -> simtime_t -> double;
  (** [MappingUtils::createMapping(v, DimensionSet::timeDomain)] *)
  createMapping : double -> Mapping;
  (** [MappingUtils::add(a, b)] *)
  add : Mapping -> Mapping -> Mapping;
  (** [MappingUtils::add(a, b, outOfRangeValue)] *)
  addOutOfRange : Mapping -> Mapping -> double -> Mapping;
  (** [MappingUtils::divide(a, b, valueWhenDivisorIsZero)] *)
  divide : Mapping -> Mapping -> double -> Mapping;
  (** [MappingUtils::findMax(m, Argument(lo), Argument(hi))] *)
  findMax : Mapping -> simtime_t -> simtime_t -> double
}.

(** ** Objects reached through pointers *)

Record Signal `{MappingUtils} : Type := mkSignal {
  getSignalStart : simtime_t;
  getSignalLength : simtime_t;
  (** [ConstMapping*], null when the signal carries no power mapping *)
  getReceivingPower : option Mapping
}.
Arguments mkSignal {_} _ _ _.

Record AirFrame `{MappingUtils} : Type := mkAirFrame {
  getSignal : Signal
}.
Arguments mkAirFrame {_} _.

(** The switch of [canAnswerCSR] names two sense modes and has no default
    label; [UNTIL_OTHER] stands for every enumerator it does not name. *)
Inductive SenseMode : Type := UNTIL_IDLE | UNTIL_BUSY | UNTIL_OTHER.

Record ChannelState : Type := mkChannelState {
  isIdle : bool;
  getRSSI : double
}.

Record ChannelSenseRequest : Type := mkChannelSenseRequest {
  getSenseMode : SenseMode;
  getSenseTimeout : simtime_t;
  getResult : ChannelState
}.

Definition setResult (r : ChannelSenseRequest) (cs : ChannelState) : ChannelSenseRequest :=
  {| getSenseMode := getSenseMode r;
     getSenseTimeout := getSenseTimeout r;
     getResult := cs |}.

Record DeciderResult : Type := mkDeciderResult {
  isSignalCorrect : bool
}.

(** ** Signal states

    [getSignalState] returns an [int] and [currentSignal.second] is an [int];
    the enumerators are those of [BaseDecider.h] in declaration order. *)

Definition NEW : Z := 0.
Definition EXPECT_HEADER : Z := 1.
Definition EXPECT_END : Z := 2.

(** ** The physical layer (DeciderToPhyInterface)

    What the decider reads from [phy] during one call: the simulation time,
    the air frames intersecting a time window, the thermal noise (a null
    pointer when there is none), and the air-frame objects themselves. *)

Record Phy `{MappingUtils} : Type := mkPhy {
  getSimTime : simtime_t;
  getChannelInfo : simtime_t -> simtime_t -> list ptr;
  getThermalNoise : simtime_t -> simtime_t -> option Mapping;
  airFrames : gmap N AirFrame
}.
Arguments mkPhy {_} _ _ _ _.

(** What the decider asks of [phy], in call order. [sendControlMsg] carries
    the request object as it is at the moment of the call. *)
Inductive PhyCall : Type :=
  | sendUp (frame : ptr) (result : DeciderResult)
  | sendControlMsg (msg : ptr) (content : ChannelSenseRequest)
  | cancelScheduledMessage (msg : ptr).

(** ** The decider

    [sensitivity] and [notAgain] are written by the constructor only.
    [currentSignal] is [std::pair<AirFrame*, int>], [currentChannelSenseRequest]
    is [std::pair<ChannelSenseRequest*, simtime_t>]. *)

Record BaseDecider : Type := mkBaseDecider {
  sensitivity : double;
  notAgain : simtime_t;
  currentSignal : ptr * Z;
  isChannelIdle : bool;
  currentChannelSenseRequest : ptr * simtime_t;
  (** the sense-request objects in memory *)
  requests : gmap N ChannelSenseRequest;
  (** the calls made on [phy] so far, oldest first *)
  phyCalls : list PhyCall
}.

Definition set_currentSignal (v : ptr * Z) (d : BaseDecider) : BaseDecider :=
  {| sensitivity := sensitivity d; notAgain := notAgain d;
     currentSignal := v;
     isChannelIdle := isChannelIdle d;
     currentChannelSenseRequest := currentChannelSenseRequest d;
     requests := requests d; phyCalls := phyCalls d |}.

Definition set_isChannelIdle (v : bool) (d : BaseDecider) : BaseDecider :=
  {| sensitivity := sensitivity d; notAgain := notAgain d;
     currentSignal := currentSignal d;
     isChannelIdle := v;
     currentChannelSenseRequest := currentChannelSenseRequest d;
     requests := requests d; phyCalls := phyCalls d |}.

Definition set_currentChannelSenseRequest (v : ptr * simtime_t) (d : BaseDecider) : BaseDecider :=
  {| sensitivity := sensitivity d; notAgain := notAgain d;
     currentSignal := currentSignal d;
     isChannelIdle := isChannelIdle d;
     currentChannelSenseRequest := v;
     requests := requests d; phyCalls := phyCalls d |}.

Definition set_requests (v : gmap N ChannelSenseRequest) (d : BaseDecider) : BaseDecider :=
  {| sensitivity := sensitivity d; notAgain := notAgain d;
     currentSignal := currentSignal d;
     isChannelIdle := isChannelIdle d;
     currentChannelSenseRequest := currentChannelSenseRequest d;
     requests := v; phyCalls := phyCalls d |}.

Definition call_phy (c : PhyCall) (d : BaseDecider) : BaseDecider :=
  {| sensitivity := sensitivity d; notAgain := notAgain d;
     currentSignal := currentSignal d;
     isChannelIdle := isChannelIdle d;
     currentChannelSenseRequest := currentChannelSenseRequest d;
     requests := requests d; phyCalls := phyCalls d ++ [c] |}.

(** ** Computations of a member function *)

Inductive Fault : Type :=
  | AssertFailed   (** [assert(e)] with [e] false *)
  | OppError       (** [opp_error(...)] *)
  | BadPointer.    (** dereference of a pointer with no object behind it *)

Inductive Outcome (A : Type) : Type :=
  | Ok (a : A) (d : BaseDecider)
  | Fatal (f : Fault) (d : BaseDecider).
Arguments Ok {A} a d.
Arguments Fatal {A} f d.

Definition M `{MappingUtils} (A : Type) : Type := Phy -> BaseDecider -> Outcome A.

Section Monad.
Context `{MappingUtils}.

Definition ret {A} (a : A) : M A := fun _ d => Ok a d.

Definition bind {A B} (c : M A) (k : A -> M B) : M B :=
  fun phy d =>
    match c phy d with
    | Ok a d' => k a phy d'
    | Fatal f d' => Fatal f d'
    end.

(** read the decider's fields / the physical layer *)
Definition this : M BaseDecider := fun _ d => Ok d d.
Definition phy : M Phy := fun p d => Ok p d.
Definition modify (f : BaseDecider -> BaseDecider) : M unit := fun _ d => Ok tt (f d).
Definition abort {A} (f : Fault) : M A := fun _ d => Fatal f d.

Definition assert (b : bool) : M unit :=
  if b then ret tt else abort AssertFailed.

Definition deref {A} (o : option A) : M A :=
  match o with
  | Some a => ret a
  | None => abort BadPointer
  end.

End Monad.

Notation "'let*' x ':=' c 'in' k" := (bind c (fun x => k))
  (at level 10, x pattern, c at level 100, k at level 200).
Notation "'run' c 'then' k" := (bind c (fun _ => k))
  (at level 10, c at level 100, k at level 200).

(** ** Member functions declared in [BaseDecider.h] only

    [processSignal] dispatches to [processSignalHeader] and
    [processUnknownSignal]; both are virtual and neither is defined in
    [BaseDecider.cc]. *)

Class DeciderHeader `{MappingUtils} : Type := {
  processSignalHeader : ptr -> M simtime_t;
  processUnknownSignal : ptr -> M simtime_t
}.

(** ** BaseDecider.cc *)

Section BaseDeciderCc.
Context `{MU : MappingUtils} `{DH : !DeciderHeader}.

(** [int BaseDecider::getSignalState(AirFrame* frame)] *)
Definition getSignalState (frame : ptr) : M Z :=
  let* d := this in
  if N.eqb frame (fst (currentSignal d))
  then ret (snd (currentSignal d))
  else ret NEW.

(** The loop of [calculateRSSIMapping] over the air frames, [resultMap]
    being the running sum.  The locals the source computes "for debugging"
    ([getValue] at a few positions, never used) are left out. *)
Fixpoint sumReceivingPower (its : list ptr) (exclude : ptr) (resultMap : Mapping)
  : M Mapping :=
  match its with
  | [] => ret resultMap
  | it :: rest =>
      run assert (negb (N.eqb it null)) then
      if N.eqb it exclude then sumReceivingPower rest exclude resultMap
      else
        let* p := phy in
        let* frame := deref (airFrames p !! it) in
        let signal := getSignal frame in
        let recvPowerMap := getReceivingPower signal in
        match recvPowerMap with
        | None => abort AssertFailed          (* assert(recvPowerMap) *)
        | Some recvPowerMap =>
            let resultMapNew := addOutOfRange recvPowerMap resultMap 0%float in
            sumReceivingPower rest exclude resultMapNew
        end
  end.

(** [Mapping* BaseDecider::calculateRSSIMapping(simtime_t start, simtime_t end,
    AirFrame* exclude)] *)
Definition calculateRSSIMapping (start end_ : simtime_t) (exclude : ptr) : M Mapping :=
  let* p := phy in
  let airFrames := getChannelInfo p start end_ in
  let resultMap := createMapping 0%float in
  let thermalNoise := getThermalNoise p start end_ in
  let resultMap :=
    match thermalNoise with
    | Some thermalNoise => add resultMap thermalNoise
    | None => resultMap
    end in
  sumReceivingPower airFrames exclude resultMap.

(** [Mapping* BaseDecider::calculateSnrMapping(AirFrame* frame)];
    [assert(noiseMap)] is on a freshly built mapping and never fails. *)
Definition calculateSnrMapping (frame : ptr) : M Mapping :=
  let* p := phy in
  let* obj := deref (airFrames p !! frame) in
  let signal := getSignal obj in
  let start := getSignalStart signal in
  let end_ := simtime_add start (getSignalLength signal) in
  let* noiseMap := calculateRSSIMapping start end_ frame in
  match getReceivingPower signal with
  | None => abort AssertFailed            (* assert(recvPowerMap) *)
  | Some recvPowerMap =>
      let snrMap := divide recvPowerMap noiseMap 0%float in
      ret snrMap
  end.

(** [double BaseDecider::calcChannelSenseRSSI(simtime_t start, simtime_t end)];
    the call leaves [exclude] at its default, the null pointer. *)
Definition calcChannelSenseRSSI (start end_ : simtime_t) : M double :=
  let* rssiMap := calculateRSSIMapping start end_ null in
  let rssi := findMax rssiMap start end_ in
  ret rssi.

(** [bool BaseDecider::canAnswerCSR(const CSRInfo& requestInfo)] *)
Definition canAnswerCSR (requestInfo : ptr * simtime_t) : M bool :=
  if N.eqb (fst requestInfo) null then ret false
  else
    let* d := this in
    let* p := phy in
    let* request := deref (requests d !! fst requestInfo) in
    let modeFulfilled :=
      match getSenseMode request with
      | UNTIL_IDLE => isChannelIdle d
      | UNTIL_BUSY => negb (isChannelIdle d)
      | UNTIL_OTHER => false
      end in
    ret (modeFulfilled
         || Z.eqb (getSimTime p) (simtime_add (snd requestInfo) (getSenseTimeout request))).

(** [void BaseDecider::answerCSR(CSRInfo& requestInfo)].  Every caller passes
    the member [currentChannelSenseRequest] by reference, so the function
    reads and clears that member. *)
Definition answerCSR : M unit :=
  let* d := this in
  let requestInfo := currentChannelSenseRequest d in
  let* p := phy in
  let* rssiValue := calcChannelSenseRSSI (snd requestInfo) (getSimTime p) in
  let rssiValue := if PrimFloat.ltb rssiValue 0%float then 0%float else rssiValue in
  let* d := this in
  let* request := deref (requests d !! fst requestInfo) in
  let request := setResult request (mkChannelState (isChannelIdle d) rssiValue) in
  run modify (set_requests (<[fst requestInfo := request]> (requests d))) then
  run modify (call_phy (sendControlMsg (fst requestInfo) request)) then
  modify (set_currentChannelSenseRequest (null, snd requestInfo)).

(** [void BaseDecider::setChannelIdleStatus(bool isIdle)] *)
Definition setChannelIdleStatus (isIdle : bool) : M unit :=
  run modify (set_isChannelIdle isIdle) then
  let* d := this in
  let* can := canAnswerCSR (currentChannelSenseRequest d) in
  if can then
    run modify (call_phy (cancelScheduledMessage (fst (currentChannelSenseRequest d)))) then
    answerCSR
  else ret tt.

(** [simtime_t BaseDecider::processNewSignal(AirFrame* frame)] *)
Definition processNewSignal (frame : ptr) : M simtime_t :=
  let* d := this in
  if negb (N.eqb (fst (currentSignal d)) null) then ret (notAgain d)
  else
    let* p := phy in
    let* obj := deref (airFrames p !! frame) in
    let signal := getSignal obj in
    let* recvPowerMap := deref (getReceivingPower signal) in
    let recvPower := getValue recvPowerMap (getSignalStart signal) in
    if PrimFloat.ltb recvPower (sensitivity d) then ret (notAgain d)
    else
      run modify (set_currentSignal (frame, EXPECT_END)) then
      run setChannelIdleStatus false then
      ret (simtime_add (getSignalStart signal) (getSignalLength signal)).

(** [simtime_t BaseDecider::processSignalEnd(AirFrame* frame)] *)
Definition processSignalEnd (frame : ptr) : M simtime_t :=
  run modify (call_phy (sendUp frame (mkDeciderResult true))) then
  run modify (fun d => set_currentSignal (null, snd (currentSignal d)) d) then
  run setChannelIdleStatus true then
  let* d := this in
  ret (notAgain d).

(** [simtime_t BaseDecider::processSignal(AirFrame* frame)] *)
Definition processSignal (frame : ptr) : M simtime_t :=
  run assert (negb (N.eqb frame null)) then
  let* state := getSignalState frame in
  if Z.eqb state NEW then processNewSignal frame
  else if Z.eqb state EXPECT_HEADER then processSignalHeader frame
  else if Z.eqb state EXPECT_END then processSignalEnd frame
  else processUnknownSignal frame.

(** [ChannelState BaseDecider::getChannelState()] *)
Definition getChannelState : M ChannelState :=
  let* p := phy in
  let now := getSimTime p in
  let* rssiValue := calcChannelSenseRSSI now now in
  let* d := this in
  ret (mkChannelState (isChannelIdle d) rssiValue).

(** [void BaseDecider::handleSenseRequestTimeout(CSRInfo& requestInfo)],
    called on [currentChannelSenseRequest] *)
Definition handleSenseRequestTimeout : M unit :=
  answerCSR.

(** [simtime_t BaseDecider::handleNewSenseRequest(ChannelSenseRequest* request)] *)
Definition handleNewSenseRequest (request : ptr) : M simtime_t :=
  let* p := phy in
  let now := getSimTime p in
  run modify (set_currentChannelSenseRequest (request, now)) then
  let* d := this in
  let* can := canAnswerCSR (currentChannelSenseRequest d) in
  if can then
    run answerCSR then
    ret (notAgain d)
  else
    let* obj := deref (requests d !! request) in
    ret (simtime_add now (getSenseTimeout obj)).

(** [simtime_t BaseDecider::handleChannelSenseRequest(ChannelSenseRequest* request)] *)
Definition handleChannelSenseRequest (request : ptr) : M simtime_t :=
  run assert (negb (N.eqb request null)) then
  let* d := this in
  if N.eqb (fst (currentChannelSenseRequest d)) null
  then handleNewSenseRequest request
  else if negb (N.eqb (fst (currentChannelSenseRequest d)) request)
  then abort OppError
  else
    run handleSenseRequestTimeout then
    ret (notAgain d).

End BaseDeciderCc.

(** ** A time-domain mapping by key entries *)

(** Modelled from the spec: [Mapping], [ConstMapping] and [MappingUtils] are
    not among the sources.  The spec's Interval Function is "a real-valued
    function of one time axis, queryable at a point and over an interval
    (max-query), and combinable (pointwise add)", and "no contributing signal
    in the window yields an empty-aggregate result" for which the
    implementation "may use a sentinel".  The source adds, at its two call
    sites of [findMax]: "the maximum value between (and including) the
    interval-borders" and "findMax() returns -DBL_MAX on empty mappings".
    Here a mapping is a list of key entries in ascending time order with a
    value for positions before the first entry; between entries the value is
    that of the latest entry (a step function). *)
Module TimeMapping.

(** Modelled from the spec: the Interval Function as data, its key entries
    in ascending time order and the value before the first of them. *)
Record t : Type := mk {
  entries : list (simtime_t * double);
  outOfRange : double
}.

Fixpoint valueFrom (es : list (simtime_t * double)) (pos : simtime_t) (cur : double)
  : double :=
  match es with
  | [] => cur
  | (k, v) :: rest => if Z.leb k pos then valueFrom rest pos v else cur
  end.

(** Modelled from the spec: "queryable at a point"; the value of the latest
    key entry at or before [pos]. *)
Definition getValue (m : t) (pos : simtime_t) : double :=
  valueFrom (entries m) pos (outOfRange m).

(** Modelled from the spec: the mapping without key entries, "zero
    everywhere" when created with 0. *)
Definition createMapping (outOfRangeVal : double) : t :=
  mk [] outOfRangeVal.

Fixpoint insertKey (k : simtime_t) (ks : list simtime_t) : list simtime_t :=
  match ks with
  | [] => [k]
  | k' :: rest =>
      if Z.ltb k k' then k :: ks
      else if Z.eqb k k' then ks
      else k' :: insertKey k rest
  end.

Definition keys (a b : t) : list simtime_t :=
  fold_right insertKey [] (List.map fst (entries a) ++ List.map fst (entries b)).

(** Modelled from the spec: "pointwise sum", taken at the key positions of
    both operands. *)
Definition addOutOfRange (a b : t) (outOfRangeVal : double) : t :=
  mk (List.map (fun k => (k, (getValue a k + getValue b k)%float)) (keys a b))
     outOfRangeVal.

(** Modelled from the spec: the pointwise sum without an explicit value
    before the first key entry. *)
Definition add (a b : t) : t :=
  addOutOfRange a b (outOfRange a + outOfRange b)%float.

(** Modelled from the spec: "pointwise division with an explicit fallback
    value when the divisor is zero", at the key positions of both operands. *)
Definition divide (a b : t) (fill : double) : t :=
  mk (List.map
        (fun k =>
           (k, if PrimFloat.eqb (getValue b k) 0%float then fill
               else (getValue a k / getValue b k)%float))
        (keys a b))
     fill.

Definition larger (res val : double) : double :=
  if PrimFloat.ltb res val then val else res.

Definition valuesWithin (m : t) (lo hi : simtime_t) : list double :=
  List.map snd (List.filter (fun e => Z.leb lo (fst e) && Z.leb (fst e) hi) (entries m)).

(** Modelled from the spec: the "interval maximum".  By the source's
    comments it is "the maximum value between (and including) the
    interval-borders" and "-DBL_MAX on empty mappings". *)
Definition findMax (m : t) (lo hi : simtime_t) : double :=
  match entries m with
  | [] => (- DBL_MAX)%float
  | _ :: _ =>
      fold_left larger (valuesWithin m lo hi ++ [getValue m hi]) (getValue m lo)
  end.

(** The maximum over the half-open interval [lo, hi), as claim C4 words it:
    the positions [hi] and later contribute nothing.  [-DBL_MAX] when the
    interval or the mapping is empty. *)
Definition findMaxHalfOpen (m : t) (lo hi : simtime_t) : double :=
  match entries m with
  | [] => (- DBL_MAX)%float
  | _ :: _ =>
      if Z.ltb lo hi
      then fold_left larger (valuesWithin m lo (hi - 1)) (getValue m lo)
      else (- DBL_MAX)%float
  end.

End TimeMapping.

#[export] Instance TimeMappingUtils : MappingUtils := {|
  Mapping := TimeMapping.t;
  getValue := TimeMapping.getValue;
  createMapping := TimeMapping.createMapping;
  add := TimeMapping.add;
  addOutOfRange := TimeMapping.addOutOfRange;
  divide := TimeMapping.divide;
  findMax := TimeMapping.findMax
|}.

(** Modelled from the spec: [processSignalHeader] and [processUnknownSignal]
    have no body in the sources.  Spec 4.1: "Any other combination: reject
    defensively, return no further events". *)
Definition rejectDefensively `{MappingUtils} (frame : ptr) : M simtime_t :=
  let* d := this in
  ret (notAgain d).

#[export] Instance SpecHeader : @DeciderHeader TimeMappingUtils := {|
  processSignalHeader := rejectDefensively;
  processUnknownSignal := rejectDefensively
|}.

(** ** Vocabulary of the statements *)

(** the decider as the outcome leaves it *)
Definition final {A} (o : Outcome A) : BaseDecider :=
  match o with
  | Ok _ d => d
  | Fatal _ d => d
  end.

(** [rssiValue < 0 ? 0 : rssiValue], the clamp of [answerCSR] *)
Definition clampNegative (rssiValue : double) : double :=
  if PrimFloat.ltb rssiValue 0%float then 0%float else rssiValue.

(** The switch of [canAnswerCSR] on its own. *)
Definition modeFulfilled (request : ChannelSenseRequest) (d : BaseDecider) : bool :=
  match getSenseMode request with
  | UNTIL_IDLE => isChannelIdle d
  | UNTIL_BUSY => negb (isChannelIdle d)
  | UNTIL_OTHER => false
  end.

(** The decider after [answerCSR] has answered the outstanding request
    [request] with the sensed value [rssiValue]. *)
Definition answered (request : ChannelSenseRequest) (rssiValue : double) (d : BaseDecider)
  : BaseDecider :=
  let msg := fst (currentChannelSenseRequest d) in
  let content :=
    setResult request (mkChannelState (isChannelIdle d) (clampNegative rssiValue)) in
  set_currentChannelSenseRequest (null, snd (currentChannelSenseRequest d))
    (call_phy (sendControlMsg msg content)
       (set_requests (<[msg := content]> (requests d)) d)).

(** An air frame the loop of [calculateRSSIMapping] can read: not null, an
    object behind it, with a receiving-power mapping. *)
Definition frameOk `{MappingUtils} (p : Phy) (it : ptr) : bool :=
  negb (N.eqb it null) &&
  match airFrames p !! it with
  | Some obj =>
      match getReceivingPower (getSignal obj) with
      | Some _ => true
      | None => false
      end
  | None => false
  end.

Definition channelOk `{MappingUtils} (p : Phy) (start end_ : simtime_t) : bool :=
  forallb (frameOk p) (getChannelInfo p start end_).

(** The outstanding sense request, if any, can be answered now: its object
    exists and the air frames of its window are readable. *)
Definition senseRequestOk `{MappingUtils} (p : Phy) (d : BaseDecider) : bool :=
  let requestInfo := currentChannelSenseRequest d in
  if N.eqb (fst requestInfo) null then true
  else
    match requests d !! fst requestInfo with
    | Some _ => channelOk p (snd requestInfo) (getSimTime p)
    | None => false
    end.

(** The invariant of the current-reception record. *)
Definition receptionInv (d : BaseDecider) : Prop :=
  fst (currentSignal d) <> null -> snd (currentSignal d) = EXPECT_END.

(** One call of a public member function, at any state of the physical
    layer and with any argument; the decider is taken as the call leaves it,
    also when the call ends the run. *)
Inductive call `{MU : MappingUtils} `{DH : !DeciderHeader}
  : BaseDecider -> BaseDecider -> Prop :=
  | call_processSignal p frame d :
      call d (final (processSignal frame p d))
  | call_handleChannelSenseRequest p request d :
      call d (final (handleChannelSenseRequest request p d))
  | call_getChannelState p d :
      call d (final (getChannelState p d))
  | call_calculateSnrMapping p frame d :
      call d (final (calculateSnrMapping frame p d)).

(** The deciders a run can reach, starting with no reception in progress
    ([currentSignal.first] null, whatever the other fields hold). *)
Inductive reachable `{MU : MappingUtils} `{DH : !DeciderHeader}
  : BaseDecider -> Prop :=
  | reachable_start d :
      fst (currentSignal d) = null -> reachable d
  | reachable_call d d' :
      reachable d -> call d d' -> reachable d'.

Definition sendUps (calls : list PhyCall) : list (ptr * DeciderResult) :=
  flat_map (fun c => match c with sendUp f r => [(f, r)] | _ => [] end) calls.

Definition controlMsgs (calls : list PhyCall) : list (ptr * ChannelSenseRequest) :=
  flat_map (fun c => match c with sendControlMsg m r => [(m, r)] | _ => [] end) calls.

(** ** Example runs

    The scenario of the spec (section 8): sensitivity -90, a frame of
    constant power -85 from t = 0 to t = 10, a frame of power -95; and a
    frame of power 5 from t = 5 to t = 15 met by a sense request.  A fresh
    decider has no reception and no sense request, and the channel is idle. *)
Module Example.

Definition constantPower (start : simtime_t) (power : double) : TimeMapping.t :=
  TimeMapping.mk [(start, power)] 0%float.

Definition frameA : AirFrame :=
  mkAirFrame (mkSignal 0 10 (Some (constantPower 0 (-85)%float))).
Definition frameB : AirFrame :=
  mkAirFrame (mkSignal 0 10 (Some (constantPower 0 (-95)%float))).
Definition frameC : AirFrame :=
  mkAirFrame (mkSignal 5 10 (Some (constantPower 5 5%float))).

Definition store : gmap N AirFrame :=
  <[1%N := frameA]> (<[2%N := frameB]> (<[3%N := frameC]> ∅)).

(** the frame behind [it] intersects the window [start, end_] *)
Definition intersects (start end_ : simtime_t) (it : ptr) : bool :=
  match store !! it with
  | Some obj =>
      Z.leb (getSignalStart (getSignal obj)) end_
      && Z.leb start (simtime_add (getSignalStart (getSignal obj)) (getSignalLength (getSignal obj)))
  | None => false
  end.

(** the physical layer at time [now] with the frames [onAir] around, and no
    thermal noise *)
Definition phyAt (now : simtime_t) (onAir : list ptr) : Phy :=
  mkPhy now
        (fun start end_ => List.filter (intersects start end_) onAir)
        (fun _ _ => None)
        store.

Definition untilBusy : ChannelSenseRequest :=
  mkChannelSenseRequest UNTIL_BUSY 10 (mkChannelState true 0%float).
Definition untilIdle : ChannelSenseRequest :=
  mkChannelSenseRequest UNTIL_IDLE 10 (mkChannelState true 0%float).

Definition fresh : BaseDecider :=
  mkBaseDecider (-90)%float (-1) (null, NEW) true (null, -1)
    (<[7%N := untilBusy]> (<[8%N := untilIdle]> ∅)) [].

(** frame A accepted at t = 0 *)
Definition receivingA : BaseDecider :=
  final (processSignal 1%N (phyAt 0 [1%N]) fresh).

(** then the until-idle request 8 arrives at t = 0 and has to wait *)
Definition receivingA_sensing : BaseDecider :=
  final (handleChannelSenseRequest 8%N (phyAt 0 [1%N]) receivingA).

(** the until-busy request 7 arrives at t = 0 on an idle, empty channel *)
Definition sensing : BaseDecider :=
  final (handleChannelSenseRequest 7%N (phyAt 0 []) fresh).

(** then frame C starts at t = 5 and is accepted: the flip to busy answers
    request 7 *)
Definition sensing_answered : BaseDecider :=
  final (processSignal 3%N (phyAt 5 [3%N]) sensing).

(** the accumulated power mapping [answerCSR] builds for that answer *)
Definition sensedPower : Outcome TimeMapping.t :=
  calculateRSSIMapping 0 5 null (phyAt 5 [3%N]) sensing.

(** the intensities handed to [sendControlMsg] so far *)
Definition deliveredIntensities (d : BaseDecider) : list double :=
  List.map (fun c => getRSSI (getResult (snd c))) (controlMsgs (phyCalls d)).

End Example.

(** ** Vocabulary of the statements on whole calls *)

(** The physical layer with [frame] taken off the air: the same time, noise
    and objects, [frame] removed from every channel info. *)
Definition withoutFrame `{MappingUtils} (frame : ptr) (p : Phy) : Phy :=
  mkPhy (getSimTime p)
        (fun start end_ =>
           List.filter (fun it => negb (N.eqb it frame)) (getChannelInfo p start end_))
        (getThermalNoise p)
        (airFrames p).

(** The receiving-power mappings of the air frames [its] other than
    [exclude], in the order of [its]. *)
Definition receivingPowers `{MappingUtils} (p : Phy) (exclude : ptr) (its : list ptr)
  : list Mapping :=
  flat_map
    (fun it : ptr =>
       if N.eqb it exclude then []
       else match airFrames p !! it with
            | Some obj =>
                match getReceivingPower (getSignal obj) with
                | Some recvPowerMap => [recvPowerMap]
                | None => []
                end
            | None => []
            end)
    its.

(** What [calculateRSSIMapping] starts the sum with: the empty mapping, the
    thermal noise added when there is some. *)
Definition noiseFloor `{MappingUtils} (p : Phy) (start end_ : simtime_t) : Mapping :=
  match getThermalNoise p start end_ with
  | Some thermalNoise => add (createMapping 0%float) thermalNoise
  | None => createMapping 0%float
  end.

(** A run: any number of calls of the member functions, one after the other. *)
Inductive calls `{MU : MappingUtils} `{DH : !DeciderHeader}
  : BaseDecider -> BaseDecider -> Prop :=
  | calls_none d : calls d d
  | calls_more d d' d'' : calls d d' -> call d' d'' -> calls d d''.

(** What a request object keeps for its whole life. *)
Definition requestKind (r : ChannelSenseRequest) : SenseMode * simtime_t :=
  (getSenseMode r, getSenseTimeout r).

Definition cancels (calls : list PhyCall) : list ptr :=
  flat_map (fun c => match c with cancelScheduledMessage m => [m] | _ => [] end) calls.

(** The deciders [setChannelIdleStatus isIdle] can leave behind when called
    on [d]: the flag written; the wake-up cancelled as well; the request
    answered as well. *)
Definition afterFlip (isIdle : bool) (d d' : BaseDecider) : Prop :=
  let d1 := set_isChannelIdle isIdle d in
  let d2 := call_phy (cancelScheduledMessage (fst (currentChannelSenseRequest d))) d1 in
  d' = d1 \/
  (fst (currentChannelSenseRequest d) <> null /\ d' = d2) \/
  exists request rssiValue,
    fst (currentChannelSenseRequest d) <> null /\
    requests d !! fst (currentChannelSenseRequest d) = Some request /\
    d' = answered request rssiValue d2.

(** The deciders [processSignal frame] can leave behind when called on [d]. *)
Definition afterProcessSignal (frame : ptr) (d d' : BaseDecider) : Prop :=
  d' = d \/
  (frame <> null /\ fst (currentSignal d) = null /\
   afterFlip false (set_currentSignal (frame, EXPECT_END) d) d') \/
  (frame <> null /\ frame = fst (currentSignal d) /\
   afterFlip true
     (set_currentSignal (null, snd (currentSignal d))
        (call_phy (sendUp frame (mkDeciderResult true)) d)) d').

(** The deciders [handleChannelSenseRequest request] can leave behind when
    called on [d] at time [now]. *)
Definition afterSenseRequest (request : ptr) (now : simtime_t) (d d' : BaseDecider) : Prop :=
  d' = d \/
  (exists obj rssiValue,
     fst (currentChannelSenseRequest d) = request /\ request <> null /\
     requests d !! request = Some obj /\
     d' = answered obj rssiValue d) \/
  (fst (currentChannelSenseRequest d) = null /\ request <> null /\
   (d' = set_currentChannelSenseRequest (request, now) d \/
    exists obj rssiValue,
      requests d !! request = Some obj /\
      d' = answered obj rssiValue (set_currentChannelSenseRequest (request, now) d))).

(** What one call does to the decider, whichever call it is: [new] are the
    calls on [phy] it adds. *)
Record CallSummary (d d' : BaseDecider) (new : list PhyCall) : Prop := {
  summary_sensitivity : sensitivity d' = sensitivity d;
  summary_notAgain : notAgain d' = notAgain d;
  summary_phyCalls : phyCalls d' = phyCalls d ++ new;
  summary_requests :
    forall r, requestKind <$> requests d' !! r = requestKind <$> requests d !! r;
  summary_sendUp :
    sendUps new = [] \/
    (fst (currentSignal d) <> null /\
     sendUps new = [(fst (currentSignal d), mkDeciderResult true)] /\
     fst (currentSignal d') = null);
  summary_controlMsg :
    controlMsgs new = [] \/
    exists r content,
      r <> null /\
      controlMsgs new = [(r, content)] /\
      fst (currentChannelSenseRequest d') = null /\
      requests d' !! r = Some content /\
      isIdle (getResult content) = isChannelIdle d';
  summary_cancel :
    cancels new = [] \/
    (fst (currentChannelSenseRequest d) <> null /\
     cancels new = [fst (currentChannelSenseRequest d)]);
  summary_occupancy :
    isChannelIdle d = N.eqb (fst (currentSignal d)) null ->
    isChannelIdle d' = N.eqb (fst (currentSignal d')) null
}.

(** ** The host of the decider

    Modelled from the spec: the physical layer and the scheduler that call
    the decider are not in the sources.  Spec 5: "Suspension [...] is
    returning a future wake-up time to the scheduler and being re-invoked
    later with the same correlating identity (transmission or request)", the
    handlers are "invoked one at a time by an external scheduler at discrete
    simulated time points".  Spec 6: "cancelScheduledWake(correlationId):
    cancel a previously requested future re-invocation"; "nextWakeTime = none
    means do not re-invoke me for this correlation id unless a new external
    event arrives".  Spec 7: a second sense request while one is pending
    violates "the core's single-outstanding-item contract".

    The host's side of a run: the decider, the time of the last call, the
    wake-up for a sense request the scheduler holds, and the sense requests
    the host has passed as new ones, in order. *)
Record Hosted : Type := mkHosted {
  decider : BaseDecider;
  clock : simtime_t;
  pending : option (ptr * simtime_t);
  submitted : list ptr
}.

(** the calls on [phy] the decider made between [d] and [d'] *)
Definition newCalls (d d' : BaseDecider) : list PhyCall :=
  drop (length (phyCalls d)) (phyCalls d').

(** The scheduler drops the wake-up it holds when the decider has called
    [cancelScheduledMessage] for its request. *)
Definition afterCancels (wake : option (ptr * simtime_t)) (new : list PhyCall)
  : option (ptr * simtime_t) :=
  match wake with
  | Some (request, _) => if existsb (N.eqb request) (cancels new) then None else wake
  | None => None
  end.

(** The scheduler holds a wake-up for [request] at the time [t] that
    [handleChannelSenseRequest] returned, none when that is [notAgain]. *)
Definition afterReturn (d : BaseDecider) (request : ptr) (t : simtime_t)
  : option (ptr * simtime_t) :=
  if Z.eqb t (notAgain d) then None else Some (request, t).

(** Events are delivered in the order of their times: a call at time [now]
    is not earlier than the last one, and not later than a wake-up the
    scheduler still holds. *)
Definition mayCall (h : Hosted) (now : simtime_t) : bool :=
  Z.leb (clock h) now &&
  match pending h with
  | Some (_, t) => Z.leb now t
  | None => true
  end.

(** The timeout of a new request is not negative and its wake-up time is a
    simulation time. *)
Definition timeoutOk (now : simtime_t) (d : BaseDecider) (request : ptr) : bool :=
  match requests d !! request with
  | Some obj =>
      Z.leb 0 (getSenseTimeout obj) && Z.leb (now + getSenseTimeout obj) INT64_MAX
  | None => true
  end.

(** the requests handed to [sendControlMsg] so far, in order *)
Definition answeredRequests (d : BaseDecider) : list ptr :=
  List.map fst (controlMsgs (phyCalls d)).

(** the request the scheduler holds a wake-up for *)
Definition pendingRequests (h : Hosted) : list ptr :=
  match pending h with
  | Some (request, _) => [request]
  | None => []
  end.

(** One call by the host that returns.  A frame event and the two queries
    come at any time the order of events allows.  A new sense request comes
    only while the scheduler holds no wake-up for one; the wake-up the
    scheduler holds is delivered at its time, with its request. *)
Inductive hostStep `{MU : MappingUtils} `{DH : !DeciderHeader} : Hosted -> Hosted -> Prop :=
  | host_frame h h' (p : Phy) frame t :
      mayCall h (getSimTime p) = true ->
      processSignal frame p (decider h) = Ok t (decider h') ->
      clock h' = getSimTime p ->
      pending h' = afterCancels (pending h) (newCalls (decider h) (decider h')) ->
      submitted h' = submitted h ->
      hostStep h h'
  | host_request h h' (p : Phy) request t :
      pending h = None ->
      mayCall h (getSimTime p) = true ->
      timeoutOk (getSimTime p) (decider h) request = true ->
      handleChannelSenseRequest request p (decider h) = Ok t (decider h') ->
      clock h' = getSimTime p ->
      pending h' = afterReturn (decider h) request t ->
      submitted h' = submitted h ++ [request] ->
      hostStep h h'
  | host_wake h h' (p : Phy) request t :
      pending h = Some (request, getSimTime p) ->
      handleChannelSenseRequest request p (decider h) = Ok t (decider h') ->
      clock h' = getSimTime p ->
      pending h' = afterReturn (decider h) request t ->
      submitted h' = submitted h ->
      hostStep h h'
  | host_getChannelState h h' (p : Phy) state :
      mayCall h (getSimTime p) = true ->
      getChannelState p (decider h) = Ok state (decider h') ->
      clock h' = getSimTime p ->
      pending h' = pending h ->
      submitted h' = submitted h ->
      hostStep h h'
  | host_calculateSnrMapping h h' (p : Phy) frame snrMap :
      mayCall h (getSimTime p) = true ->
      calculateSnrMapping frame p (decider h) = Ok snrMap (decider h') ->
      clock h' = getSimTime p ->
      pending h' = pending h ->
      submitted h' = submitted h ->
      hostStep h h'.

Inductive hostRun `{MU : MappingUtils} `{DH : !DeciderHeader} : Hosted -> Hosted -> Prop :=
  | hostRun_none h : hostRun h h
  | hostRun_more h h' h'' : hostRun h h' -> hostStep h' h'' -> hostRun h h''.

(** Where a hosted run starts: no reception in progress, no sense request
    outstanding and no wake-up held; the requests counted as passed are the
    ones already answered; [notAgain] is a negative time and simulated time
    is not. *)
Definition hostStart (h : Hosted) : Prop :=
  fst (currentSignal (decider h)) = null /\
  fst (currentChannelSenseRequest (decider h)) = null /\
  pending h = None /\
  submitted h = answeredRequests (decider h) /\
  notAgain (decider h) < 0 /\
  0 <= clock h.

(** What the host's side and the decider's have in common between calls:
    the scheduler holds a wake-up exactly for the outstanding request, at
    its arrival + timeout, which is not past, and that request's mode is
    not fulfilled. *)
Definition hostInv (h : Hosted) : Prop :=
  let d := decider h in
  receptionInv d /\
  notAgain d < 0 /\
  0 <= clock h /\
  submitted h = answeredRequests d ++ pendingRequests h /\
  match pending h with
  | None => fst (currentChannelSenseRequest d) = null
  | Some (request, t) =>
      request <> null /\
      fst (currentChannelSenseRequest d) = request /\
      clock h <= t /\
      exists obj,
        requests d !! request = Some obj /\
        modeFulfilled obj d = false /\
        t = simtime_add (snd (currentChannelSenseRequest d)) (getSenseTimeout obj)
  end.

(** A call that answers no sense request: the record and the request
    objects are as before, nothing is cancelled. *)
Definition quietCall (d d' : BaseDecider) : Prop :=
  notAgain d' = notAgain d /\
  currentChannelSenseRequest d' = currentChannelSenseRequest d /\
  requests d' = requests d /\
  exists new,
    phyCalls d' = phyCalls d ++ new /\ cancels new = [] /\ controlMsgs new = [].

(** A call that answers [request], once, with the wake-ups [cancelled]. *)
Definition answeringCall (request : ptr) (cancelled : list ptr) (d d' : BaseDecider) : Prop :=
  notAgain d' = notAgain d /\
  fst (currentChannelSenseRequest d') = null /\
  exists new content,
    phyCalls d' = phyCalls d ++ new /\
    cancels new = cancelled /\
    controlMsgs new = [(request, content)].

(** The example run on the host's side: frame A accepted at t = 0, the
    until-idle request 8 passed at t = 0 (wake-up at 10), the channel state
    read at t = 5, and the end of frame A at t = 10, which answers the
    request. *)
Module HostedExample.
Import Example.

Definition hostFresh : Hosted := mkHosted fresh 0 None [].
Definition hostReceiving : Hosted := mkHosted receivingA 0 None [].
Definition hostSensing : Hosted :=
  mkHosted receivingA_sensing 0 (Some (8%N, 10)) [8%N].
Definition hostSensingLater : Hosted :=
  mkHosted receivingA_sensing 5 (Some (8%N, 10)) [8%N].
Definition hostAnswered : Hosted :=
  mkHosted (final (processSignal 1%N (phyAt 10 [1%N]) receivingA_sensing)) 10 None [8%N].

End HostedExample.

(** * TraCIScenarioManager.cc: type mappings and the region of interest

    The functions of [src/src/veins/modules/mobility/traci/TraCIScenarioManager.cc]
    that compute on strings, maps and coordinates.  A [std::string] is a
    [string], [std::string::npos] is [None], a [std::map<std::string,
    std::string>] is a [gmap string string], a thrown [cRuntimeError] is the
    outcome [cRuntimeError].  The members [roiRoads] and [roiRects] the
    region test reads are arguments. *)
Module TraCI.

(** [cStringTokenizer(str, delimiters).asVector()] of OMNeT++, not part of
    the repository: an operation of the environment. *)
Class StringTokenizer : Type := {
  asVector : string -> string -> list string
}.

Inductive Thrown (A : Type) : Type :=
  | Returned (a : A)
  | cRuntimeError.
Arguments Returned {A} a.
Arguments cRuntimeError {A}.

(** [s.find(c, pos)]: the first position at or after [pos] that holds [c] *)
Fixpoint find (s : string) (c : ascii) (pos : nat) : option nat :=
  match s with
  | EmptyString => None
  | String a rest =>
      match pos with
      | O => if Ascii.eqb a c then Some O else option_map S (find rest c O)
      | S pos' => option_map S (find rest c pos')
      end
  end.

(** [s.substr(pos, len)], for [pos] within the string *)
Definition substr (s : string) (pos len : nat) : string :=
  String.substring pos len s.

Definition protection : ascii := "'"%char.
Definition equalSign : ascii := "="%char.

Section Mappings.
Context `{StringTokenizer}.

(** [std::vector<std::string> getMapping(std::string el)].  [el.size() - 1],
    [second - first - 1] and [first - 1] are computed where a quote was
    found, so none of them wraps around. *)
Definition getMapping (el : string) : Thrown (list string) :=
  match find el protection 0 with
  | None => Returned (asVector el "=")
  | Some first =>
      match find el protection (first + 1) with
      | None => cRuntimeError
      | Some second =>
          if negb (Nat.eqb second (String.length el - 1)) then cRuntimeError
          else
            let value := substr el (first + 1) (second - first - 1) in
            if Nat.eqb first 0 then Returned [value]
            else
              match find el equalSign 0 with
              | None => cRuntimeError
              | Some eq =>
                  if negb (Nat.eqb eq (first - 1)) then cRuntimeError
                  else
                    let type := substr el 0 eq in
                    Returned [type; value]
              end
      end
  end.

(** The loop of [parseMappings] over [typeMappings], from index [i] on;
    [size] is [typeMappings.size()] and [map] the mapping built so far. *)
Fixpoint parseMappingsLoop (size : nat) (typeMappings : list string)
  (map : gmap string string) : Thrown (gmap string string) :=
  match typeMappings with
  | [] => Returned map
  | typeMapping :: rest =>
      match getMapping typeMapping with
      | cRuntimeError => cRuntimeError
      | Returned mapping =>
          match mapping with
          | [only] =>
              if negb (Nat.eqb size 1) then cRuntimeError
              else parseMappingsLoop size rest (<["*" := only]> map)
          | [type; value] =>
              match map !! type with
              | Some _ => cRuntimeError
              | None => parseMappingsLoop size rest (<[type := value]> map)
              end
          | _ => cRuntimeError
          end
      end
  end.

(** [TypeMapping TraCIScenarioManager::parseMappings(std::string parameter,
    std::string parameterName, bool allowEmpty)] *)
Definition parseMappings (parameter parameterName : string) (allowEmpty : bool)
  : Thrown (gmap string string) :=
  let typeMappings := asVector parameter " " in
  if Nat.eqb (List.length typeMappings) 0 then
    if negb allowEmpty then cRuntimeError else Returned ∅
  else parseMappingsLoop (List.length typeMappings) typeMappings ∅.

(** The consistency check of [parseModuleTypes] on the three parsed
    mappings.  The key vectors are the keys of a [std::map], sorted and
    without repetition, and of each [std::set_intersection] only the size is
    used: the number of common keys. *)
Definition checkModuleTypes (moduleType moduleName moduleDisplayString : gmap string string)
  : Thrown unit :=
  let typeKeys := dom moduleType in
  let nameKeys := dom moduleName in
  let displayStringKeys := dom moduleDisplayString in
  let intersection := typeKeys ∩ nameKeys in
  if negb (Nat.eqb (size intersection) (size typeKeys))
     || negb (Nat.eqb (size intersection) (size nameKeys))
  then cRuntimeError
  else if Nat.eqb (size displayStringKeys) 0 then Returned tt
  else
    let intersection := typeKeys ∩ displayStringKeys in
    if negb (Nat.eqb (size intersection) (size displayStringKeys)) then cRuntimeError
    else Returned tt.

(** [void TraCIScenarioManager::parseModuleTypes()]; the three parameters
    [par("moduleType")], [par("moduleName")] and [par("moduleDisplayString")]
    are arguments, the members it assigns are the result. *)
Definition parseModuleTypes (moduleTypes moduleNames moduleDisplayStrings : string)
  : Thrown (gmap string string * gmap string string * gmap string string) :=
  match parseMappings moduleTypes "moduleType" false with
  | cRuntimeError => cRuntimeError
  | Returned moduleType =>
      match parseMappings moduleNames "moduleName" false with
      | cRuntimeError => cRuntimeError
      | Returned moduleName =>
          match parseMappings moduleDisplayStrings "moduleDisplayString" true with
          | cRuntimeError => cRuntimeError
          | Returned moduleDisplayString =>
              match checkModuleTypes moduleType moduleName moduleDisplayString with
              | cRuntimeError => cRuntimeError
              | Returned _ => Returned (moduleType, moduleName, moduleDisplayString)
              end
          end
      end
  end.

End Mappings.

(** [struct TraCICoord { double x; double y; }] *)
Record TraCICoord : Type := mkTraCICoord {
  x : double;
  y : double
}.

(** the loop of [isInRegionOfInterest] over [roiRoads] *)
Fixpoint onRoiRoad (road_id : string) (roiRoads : list string) : bool :=
  match roiRoads with
  | [] => false
  | i :: rest => if String.eqb road_id i then true else onRoiRoad road_id rest
  end.

(** the loop of [isInRegionOfInterest] over [roiRects]; [a >= b] on doubles
    is [b <= a] *)
Fixpoint inRoiRect (position : TraCICoord) (roiRects : list (TraCICoord * TraCICoord))
  : bool :=
  match roiRects with
  | [] => false
  | i :: rest =>
      if PrimFloat.leb (x (fst i)) (x position)
         && PrimFloat.leb (y (fst i)) (y position)
         && PrimFloat.leb (x position) (x (snd i))
         && PrimFloat.leb (y position) (y (snd i))
      then true
      else inRoiRect position rest
  end.

(** [bool TraCIScenarioManager::isInRegionOfInterest(const TraCICoord&
    position, std::string road_id, double speed, double angle)] *)
Definition isInRegionOfInterest
  (roiRoads : list string) (roiRects : list (TraCICoord * TraCICoord))
  (position : TraCICoord) (road_id : string) (speed angle : double) : bool :=
  if Nat.eqb (List.length roiRoads) 0 && Nat.eqb (List.length roiRects) 0 then true
  else if Nat.ltb 0 (List.length roiRoads) && onRoiRoad road_id roiRoads then true
  else if Nat.ltb 0 (List.length roiRects) && inRoiRect position roiRects then true
  else false.

(** A mapping written the protected way, [type='value']. *)
Definition protectedMapping (type value : string) : string :=
  (type ++ "='" ++ value ++ "'")%string.

(** [c] does not occur in [s]. *)
Fixpoint without (c : ascii) (s : string) : bool :=
  match s with
  | EmptyString => true
  | String a rest => negb (Ascii.eqb a c) && without c rest
  end.

(** A pair (type, value) that can be written the protected way: no quote in
    either, no equal sign in the type. *)
Definition protectable (kv : string * string) : Prop :=
  without protection (fst kv) = true /\
  without equalSign (fst kv) = true /\
  without protection (snd kv) = true.

Definition written (kv : string * string) : string :=
  protectedMapping (fst kv) (snd kv).

(** [position] lies in the rectangle [rect], borders included: the test of
    the loop over [roiRects]. *)
Definition contains (rect : TraCICoord * TraCICoord) (position : TraCICoord) : bool :=
  PrimFloat.leb (x (fst rect)) (x position)
  && PrimFloat.leb (y (fst rect)) (y position)
  && PrimFloat.leb (x position) (x (snd rect))
  && PrimFloat.leb (y position) (y (snd rect)).

(** A tokenizer for the examples: tokens are the longest runs of characters
    that are not delimiters. *)
Fixpoint isDelimiter (c : ascii) (delimiters : string) : bool :=
  match delimiters with
  | EmptyString => false
  | String d rest => Ascii.eqb c d || isDelimiter c rest
  end.

Fixpoint tokensFrom (delimiters s current : string) : list string :=
  match s with
  | EmptyString =>
      match current with
      | EmptyString => []
      | _ => [current]
      end
  | String c rest =>
      if isDelimiter c delimiters then
        match current with
        | EmptyString => tokensFrom delimiters rest ""
        | _ => current :: tokensFrom delimiters rest ""
        end
      else tokensFrom delimiters rest (String.append current (String c ""))
  end.

Definition runTokenizer : StringTokenizer :=
  {| asVector := fun s delimiters => tokensFrom delimiters s "" |}.

End TraCI.

(** * Properties *)

(** ** Comparison of doubles *)

Lemma SFcompare_antisym (x y : spec_float) :
  SFcompare y x =
  match SFcompare x y with Some c => Some (CompOpp c) | None => None end.
Proof.
  destruct x as [sx|sx| |sx mx ex], y as [sy|sy| |sy my ey]; simpl; try reflexivity;
    try (destruct sx; reflexivity); try (destruct sy; reflexivity);
    try (destruct sx, sy; reflexivity).
  destruct sx, sy; try reflexivity;
    rewrite (Z.compare_antisym ex ey); destruct (ex ?= ey); simpl; try reflexivity;
    rewrite (Pos.compare_cont_antisym mx my Eq); reflexivity.
Qed.

(** [x <= y] excludes [y < x], also with NaN and signed zeros. *)
Lemma leb_not_ltb (x y : double) :
  PrimFloat.leb x y = true -> PrimFloat.ltb y x = false.
Proof.
  rewrite leb_spec, ltb_spec. unfold SFleb, SFltb.
  rewrite (SFcompare_antisym (Prim2SF x) (Prim2SF y)).
  destruct (SFcompare (Prim2SF x) (Prim2SF y)) as [[]|]; simpl; congruence.
Qed.

(** 64-bit time arithmetic. *)

Lemma wrap64_representable (z : Z) : representable (wrap64 z).
Proof.
  unfold representable, wrap64, INT64_MIN, INT64_MAX.
  pose proof (Z.mod_pos_bound (z + 2 ^ 63) (2 ^ 64) ltac:(lia)). lia.
Qed.

Lemma wrap64_exact (z : Z) : representable z -> wrap64 z = z.
Proof.
  unfold representable, wrap64, INT64_MIN, INT64_MAX. intros Hz.
  rewrite Z.mod_small by lia. lia.
Qed.

Lemma simtime_add_exact (a b : simtime_t) :
  representable (a + b) -> simtime_add a b = a + b.
Proof. apply wrap64_exact. Qed.

Lemma simtime_add_same (now t : simtime_t) :
  representable now -> representable t -> simtime_add now t = now <-> t = 0.
Proof.
  unfold representable, INT64_MIN, INT64_MAX. intros Hn Ht. split.
  - unfold simtime_add, wrap64. intros E.
    pose proof (Z.div_mod (now + t + 2 ^ 63) (2 ^ 64) ltac:(lia)) as Hdm.
    set (q := (now + t + 2 ^ 63) / 2 ^ 64) in *.
    assert (Hq : t = 2 ^ 64 * q) by lia.
    assert (q = 0) by lia. lia.
  - intros ->. unfold simtime_add. rewrite Z.add_0_r. apply wrap64_exact.
    exact Hn.
Qed.

Lemma simtime_add_eqb (now t : simtime_t) :
  representable now -> representable t ->
  Z.eqb now (simtime_add now t) = Z.eqb t 0.
Proof.
  intros Hn Ht. pose proof (simtime_add_same now t Hn Ht) as [H1 H2].
  destruct (Z.eqb_spec t 0) as [E|E].
  - apply Z.eqb_eq. symmetry. apply H2, E.
  - apply Z.eqb_neq. intros E'. apply E, H1. symmetry. exact E'.
Qed.

Ltac monad_unfold :=
  cbv beta iota delta [bind ret this phy modify abort assert deref].

Ltac monad_step :=
  cbv beta iota delta [bind ret this phy modify abort assert deref negb].

Section Properties.
Context `{MU : MappingUtils} `{DH : !DeciderHeader}.

(** ** Building the RSSI mapping only reads *)

Lemma sumReceivingPower_final its exclude resultMap (p : Phy) d :
  final (sumReceivingPower its exclude resultMap p d) = d.
Proof.
  revert resultMap. induction its as [|it rest IH]; intros resultMap; simpl.
  - reflexivity.
  - monad_unfold. destruct (N.eqb it null); simpl; [reflexivity|].
    destruct (N.eqb it exclude); [apply IH|].
    destruct (airFrames p !! it) as [obj|]; simpl; [|reflexivity].
    destruct (getReceivingPower (getSignal obj)); [apply IH|reflexivity].
Qed.

Lemma sumReceivingPower_ok its exclude resultMap (p : Phy) :
  forallb (frameOk p) its = true ->
  exists m, forall d', sumReceivingPower its exclude resultMap p d' = Ok m d'.
Proof.
  revert resultMap. induction its as [|it rest IH]; intros resultMap Hok; simpl in *.
  - exists resultMap. reflexivity.
  - apply andb_true_iff in Hok as [Hit Hrest].
    unfold frameOk in Hit. apply andb_true_iff in Hit as [Hnn Hobj].
    monad_unfold. rewrite Hnn. simpl.
    destruct (N.eqb it exclude); [apply IH; exact Hrest|].
    destruct (airFrames p !! it) as [obj|]; [|discriminate]. simpl.
    destruct (getReceivingPower (getSignal obj)); [|discriminate].
    apply IH; exact Hrest.
Qed.

Lemma calculateRSSIMapping_final start end_ exclude (p : Phy) d :
  final (calculateRSSIMapping start end_ exclude p d) = d.
Proof.
  unfold calculateRSSIMapping. monad_unfold. apply sumReceivingPower_final.
Qed.

Lemma calculateRSSIMapping_ok start end_ exclude (p : Phy) :
  channelOk p start end_ = true ->
  exists m, forall d', calculateRSSIMapping start end_ exclude p d' = Ok m d'.
Proof.
  intros Hok. unfold calculateRSSIMapping. monad_unfold.
  apply (sumReceivingPower_ok _ _ _ p). exact Hok.
Qed.

Lemma calcChannelSenseRSSI_final start end_ (p : Phy) d :
  final (calcChannelSenseRSSI start end_ p d) = d.
Proof.
  unfold calcChannelSenseRSSI. monad_unfold.
  pose proof (calculateRSSIMapping_final start end_ null p d) as H.
  destruct (calculateRSSIMapping start end_ null p d); exact H.
Qed.

Lemma calcChannelSenseRSSI_eq start end_ (p : Phy) d m :
  calculateRSSIMapping start end_ null p d = Ok m d ->
  calcChannelSenseRSSI start end_ p d = Ok (findMax m start end_) d.
Proof.
  intros H. unfold calcChannelSenseRSSI. monad_unfold. rewrite H. reflexivity.
Qed.

(** ** The answerability predicate *)

Lemma canAnswerCSR_null requestInfo (p : Phy) d :
  fst requestInfo = null -> canAnswerCSR requestInfo p d = Ok false d.
Proof.
  intros H. unfold canAnswerCSR. rewrite H. reflexivity.
Qed.

Lemma canAnswerCSR_eq requestInfo (p : Phy) d request :
  fst requestInfo <> null ->
  requests d !! fst requestInfo = Some request ->
  canAnswerCSR requestInfo p d =
  Ok (modeFulfilled request d
      || Z.eqb (getSimTime p) (simtime_add (snd requestInfo) (getSenseTimeout request))) d.
Proof.
  intros Hnn Hobj. unfold canAnswerCSR.
  destruct (N.eqb_spec (fst requestInfo) null) as [E|_]; [contradiction|].
  monad_unfold. rewrite Hobj. reflexivity.
Qed.

Lemma canAnswerCSR_final requestInfo (p : Phy) d :
  final (canAnswerCSR requestInfo p d) = d.
Proof.
  unfold canAnswerCSR. destruct (N.eqb (fst requestInfo) null); [reflexivity|].
  monad_unfold. destruct (requests d !! fst requestInfo); reflexivity.
Qed.

(** ** Answering *)

Lemma answerCSR_eq (p : Phy) d request m :
  requests d !! fst (currentChannelSenseRequest d) = Some request ->
  calculateRSSIMapping (snd (currentChannelSenseRequest d)) (getSimTime p) null p d
    = Ok m d ->
  answerCSR p d =
  Ok tt (answered request
           (findMax m (snd (currentChannelSenseRequest d)) (getSimTime p)) d).
Proof.
  intros Hobj Hmap. unfold answerCSR.
  unfold bind at 1. unfold this at 1. unfold bind at 1. unfold phy at 1.
  unfold bind at 1. rewrite (calcChannelSenseRSSI_eq _ _ _ _ _ Hmap).
  monad_unfold. rewrite Hobj. reflexivity.
Qed.

Lemma answerCSR_currentSignal (p : Phy) d :
  currentSignal (final (answerCSR p d)) = currentSignal d.
Proof.
  unfold answerCSR.
  unfold bind at 1. unfold this at 1. unfold bind at 1. unfold phy at 1.
  unfold bind at 1.
  pose proof (calcChannelSenseRSSI_final
                (snd (currentChannelSenseRequest d)) (getSimTime p) p d) as H.
  destruct (calcChannelSenseRSSI _ _ p d) as [r d'|f d']; simpl in H; subst d'.
  - monad_unfold.
    destruct (requests d !! fst (currentChannelSenseRequest d)); reflexivity.
  - reflexivity.
Qed.

(** ** Occupancy flips *)

Lemma setChannelIdleStatus_no_request isIdle (p : Phy) d :
  fst (currentChannelSenseRequest d) = null ->
  setChannelIdleStatus isIdle p d = Ok tt (set_isChannelIdle isIdle d).
Proof.
  intros Hnull. unfold setChannelIdleStatus. monad_unfold.
  rewrite canAnswerCSR_null by exact Hnull. reflexivity.
Qed.

Lemma setChannelIdleStatus_waiting isIdle (p : Phy) d request :
  fst (currentChannelSenseRequest d) <> null ->
  requests d !! fst (currentChannelSenseRequest d) = Some request ->
  modeFulfilled request (set_isChannelIdle isIdle d)
  || Z.eqb (getSimTime p)
       (simtime_add (snd (currentChannelSenseRequest d)) (getSenseTimeout request)) = false ->
  setChannelIdleStatus isIdle p d = Ok tt (set_isChannelIdle isIdle d).
Proof.
  intros Hnn Hobj Hcan. unfold setChannelIdleStatus. monad_unfold.
  change (currentChannelSenseRequest (set_isChannelIdle isIdle d))
    with (currentChannelSenseRequest d).
  rewrite (canAnswerCSR_eq _ p (set_isChannelIdle isIdle d) request Hnn Hobj).
  simpl. rewrite Hcan. reflexivity.
Qed.

Lemma setChannelIdleStatus_answers isIdle (p : Phy) d request m :
  fst (currentChannelSenseRequest d) <> null ->
  requests d !! fst (currentChannelSenseRequest d) = Some request ->
  modeFulfilled request (set_isChannelIdle isIdle d)
  || Z.eqb (getSimTime p)
       (simtime_add (snd (currentChannelSenseRequest d)) (getSenseTimeout request)) = true ->
  (forall d', calculateRSSIMapping (snd (currentChannelSenseRequest d))
                (getSimTime p) null p d' = Ok m d') ->
  setChannelIdleStatus isIdle p d =
  Ok tt (answered request
           (findMax m (snd (currentChannelSenseRequest d)) (getSimTime p))
           (call_phy (cancelScheduledMessage (fst (currentChannelSenseRequest d)))
              (set_isChannelIdle isIdle d))).
Proof.
  intros Hnn Hobj Hcan Hmap. unfold setChannelIdleStatus. monad_unfold.
  change (currentChannelSenseRequest (set_isChannelIdle isIdle d))
    with (currentChannelSenseRequest d).
  rewrite (canAnswerCSR_eq _ p (set_isChannelIdle isIdle d) request Hnn Hobj).
  simpl. rewrite Hcan.
  apply (answerCSR_eq p
           (call_phy (cancelScheduledMessage (fst (currentChannelSenseRequest d)))
              (set_isChannelIdle isIdle d)) request m Hobj (Hmap _)).
Qed.

Lemma setChannelIdleStatus_currentSignal isIdle (p : Phy) d :
  currentSignal (final (setChannelIdleStatus isIdle p d)) = currentSignal d.
Proof.
  unfold setChannelIdleStatus. monad_unfold.
  pose proof (canAnswerCSR_final (currentChannelSenseRequest (set_isChannelIdle isIdle d))
                p (set_isChannelIdle isIdle d)) as H.
  destruct (canAnswerCSR _ p (set_isChannelIdle isIdle d)) as [[|] d'|f d'];
    simpl in H; subst d'; try reflexivity.
  apply (answerCSR_currentSignal p
           (call_phy (cancelScheduledMessage
                        (fst (currentChannelSenseRequest (set_isChannelIdle isIdle d))))
              (set_isChannelIdle isIdle d))).
Qed.

(** With the outstanding request answerable in principle, a flip returns,
    sets the flag, keeps the reception record and hands nothing upward. *)
Lemma setChannelIdleStatus_ok isIdle (p : Phy) d :
  senseRequestOk p d = true ->
  exists d' new,
    setChannelIdleStatus isIdle p d = Ok tt d' /\
    isChannelIdle d' = isIdle /\
    currentSignal d' = currentSignal d /\
    sensitivity d' = sensitivity d /\
    notAgain d' = notAgain d /\
    phyCalls d' = phyCalls d ++ new /\
    sendUps new = [].
Proof.
  intros Hok. unfold senseRequestOk in Hok.
  destruct (N.eqb_spec (fst (currentChannelSenseRequest d)) null) as [Hnull|Hnn].
  - exists (set_isChannelIdle isIdle d), [].
    rewrite setChannelIdleStatus_no_request by exact Hnull.
    rewrite app_nil_r. repeat split.
  - destruct (requests d !! fst (currentChannelSenseRequest d)) as [request|] eqn:Hobj;
      [|discriminate].
    destruct (calculateRSSIMapping_ok _ _ null p Hok) as [m Hmap].
    destruct (modeFulfilled request (set_isChannelIdle isIdle d)
              || Z.eqb (getSimTime p)
                   (simtime_add (snd (currentChannelSenseRequest d)) (getSenseTimeout request)))
      eqn:Hcan.
    + eexists _, _.
      rewrite (setChannelIdleStatus_answers isIdle p d request m Hnn Hobj Hcan Hmap).
      split; [reflexivity|]. simpl. rewrite <- app_assoc.
      repeat split.
    + exists (set_isChannelIdle isIdle d), [].
      rewrite (setChannelIdleStatus_waiting isIdle p d request Hnn Hobj Hcan).
      rewrite app_nil_r. repeat split.
Qed.

(** ** Dispatch of [processSignal] *)

Lemma getSignalState_untracked frame (p : Phy) d :
  frame <> fst (currentSignal d) -> getSignalState frame p d = Ok NEW d.
Proof.
  intros Hne. unfold getSignalState. monad_unfold.
  destruct (N.eqb_spec frame (fst (currentSignal d))); [contradiction|reflexivity].
Qed.

Lemma getSignalState_tracked frame (p : Phy) d :
  frame = fst (currentSignal d) ->
  getSignalState frame p d = Ok (snd (currentSignal d)) d.
Proof.
  intros ->. unfold getSignalState. monad_unfold.
  rewrite N.eqb_refl. reflexivity.
Qed.

Lemma processSignal_untracked frame (p : Phy) d :
  frame <> null -> frame <> fst (currentSignal d) ->
  processSignal frame p d = processNewSignal frame p d.
Proof.
  intros Hnn Hne. unfold processSignal.
  unfold bind at 1. unfold assert.
  destruct (N.eqb_spec frame null) as [E|_]; [contradiction|]. simpl.
  unfold bind at 1. rewrite getSignalState_untracked by exact Hne.
  reflexivity.
Qed.

Lemma processSignal_tracked_end frame (p : Phy) d :
  frame <> null -> currentSignal d = (frame, EXPECT_END) ->
  processSignal frame p d = processSignalEnd frame p d.
Proof.
  intros Hnn Hcur. unfold processSignal.
  unfold bind at 1. unfold assert.
  destruct (N.eqb_spec frame null) as [E|_]; [contradiction|]. simpl.
  unfold bind at 1. rewrite getSignalState_tracked by (rewrite Hcur; reflexivity).
  rewrite Hcur. reflexivity.
Qed.

(** ** Reception *)

(** C1. A non-null frame that is not tracked, arriving while no reception is
    in progress, whose receiving power at its own signal start is at least
    the sensitivity: [processSignal] records it as the current reception in
    state [EXPECT_END], sets the channel busy ([isChannelIdle = false]) and
    returns exactly [signalStart + signalLength], the sum as [simtime_t]
    computes it on 64 bits; it is the sum of the two numbers whenever that is
    a 64-bit value. *)
Theorem processSignal_accepts_strong_frame
  (p : Phy) (d : BaseDecider) (frame : ptr) (obj : AirFrame) (recvPowerMap : Mapping) :
  frame <> null ->
  fst (currentSignal d) = null ->
  airFrames p !! frame = Some obj ->
  getReceivingPower (getSignal obj) = Some recvPowerMap ->
  PrimFloat.leb (sensitivity d)
    (getValue recvPowerMap (getSignalStart (getSignal obj))) = true ->
  senseRequestOk p d = true ->
  let signalStart := getSignalStart (getSignal obj) in
  let signalLength := getSignalLength (getSignal obj) in
  (exists d',
     processSignal frame p d = Ok (simtime_add signalStart signalLength) d' /\
     currentSignal d' = (frame, EXPECT_END) /\
     isChannelIdle d' = false) /\
  (representable (signalStart + signalLength) ->
   simtime_add signalStart signalLength = signalStart + signalLength).
Proof.
  intros Hnn Hfree Hobj Hmap Hpow Hok signalStart signalLength.
  split; [|apply simtime_add_exact].
  rewrite processSignal_untracked by (rewrite ?Hfree; assumption).
  unfold processNewSignal. monad_unfold.
  rewrite Hfree. simpl. rewrite Hobj. monad_unfold. rewrite Hmap. monad_unfold.
  rewrite (leb_not_ltb _ _ Hpow).
  destruct (setChannelIdleStatus_ok false p (set_currentSignal (frame, EXPECT_END) d) Hok)
    as (d' & new & Hrun & Hidle & Hcur & _).
  fold signalStart signalLength.
  rewrite Hrun. exists d'. repeat split; assumption.
Qed.

(** C2. The reception record holds one frame.  A non-null frame in state
    [NEW] that arrives while another frame is the current reception is
    rejected: [processSignal] returns [notAgain] and leaves the decider as
    it was (reception record, occupancy flag, outstanding sense request,
    calls on [phy]), whatever the physical layer holds for the new frame:
    its power is not read. *)
Theorem processSignal_rejects_second_frame
  (p : Phy) (d : BaseDecider) (frame : ptr) :
  frame <> null ->
  fst (currentSignal d) <> null ->
  frame <> fst (currentSignal d) ->
  processSignal frame p d = Ok (notAgain d) d.
Proof.
  intros Hnn Hbusy Hne.
  rewrite processSignal_untracked by assumption.
  unfold processNewSignal. monad_unfold.
  destruct (N.eqb_spec (fst (currentSignal d)) null) as [E|_]; [contradiction|].
  reflexivity.
Qed.

(** C3. For the frame recorded as the current reception in state
    [EXPECT_END], [processSignal] calls [sendUp] exactly once, for that frame
    and with a positive [DeciderResult], clears the reception record, sets
    the channel idle and returns [notAgain]. *)
Theorem processSignal_delivers_at_end
  (p : Phy) (d : BaseDecider) (frame : ptr) :
  frame <> null ->
  currentSignal d = (frame, EXPECT_END) ->
  senseRequestOk p d = true ->
  exists d' new,
    processSignal frame p d = Ok (notAgain d) d' /\
    phyCalls d' = phyCalls d ++ new /\
    sendUps new = [(frame, mkDeciderResult true)] /\
    fst (currentSignal d') = null /\
    isChannelIdle d' = true.
Proof.
  intros Hnn Hcur Hok.
  rewrite processSignal_tracked_end by assumption.
  unfold processSignalEnd. monad_unfold.
  set (d1 := set_currentSignal (null, snd (currentSignal _))
               (call_phy (sendUp frame (mkDeciderResult true)) d)).
  destruct (setChannelIdleStatus_ok true p d1 Hok)
    as (d' & new & Hrun & Hidle & Hsig & _ & Hnot & Hcalls & Hups).
  rewrite Hrun. exists d', (sendUp frame (mkDeciderResult true) :: new).
  repeat split.
  - rewrite Hnot. reflexivity.
  - rewrite Hcalls. subst d1. simpl. rewrite <- app_assoc. reflexivity.
  - simpl. rewrite Hups. reflexivity.
  - rewrite Hsig. reflexivity.
  - exact Hidle.
Qed.

(** C9. A non-null untracked frame arriving while no reception is in
    progress, whose receiving power at its own signal start is strictly
    below the sensitivity: [processSignal] returns [notAgain] and the decider
    is unchanged (occupancy flag, reception record, outstanding sense
    request, calls on [phy]). *)
Theorem processSignal_rejects_weak_frame
  (p : Phy) (d : BaseDecider) (frame : ptr) (obj : AirFrame) (recvPowerMap : Mapping) :
  frame <> null ->
  fst (currentSignal d) = null ->
  airFrames p !! frame = Some obj ->
  getReceivingPower (getSignal obj) = Some recvPowerMap ->
  PrimFloat.ltb (getValue recvPowerMap (getSignalStart (getSignal obj)))
    (sensitivity d) = true ->
  processSignal frame p d = Ok (notAgain d) d.
Proof.
  intros Hnn Hfree Hobj Hmap Hpow.
  rewrite processSignal_untracked by (rewrite ?Hfree; assumption).
  unfold processNewSignal. monad_unfold.
  rewrite Hfree. simpl. rewrite Hobj. monad_unfold. rewrite Hmap. monad_unfold.
  rewrite Hpow. reflexivity.
Qed.

(** ** Sense requests *)

Lemma handleNewSenseRequest_answers request (p : Phy) d obj m :
  request <> null ->
  requests d !! request = Some obj ->
  modeFulfilled obj d || Z.eqb (getSimTime p) (simtime_add (getSimTime p) (getSenseTimeout obj)) = true ->
  (forall d', calculateRSSIMapping (getSimTime p) (getSimTime p) null p d' = Ok m d') ->
  handleNewSenseRequest request p d =
  Ok (notAgain d)
     (answered obj (findMax m (getSimTime p) (getSimTime p))
        (set_currentChannelSenseRequest (request, getSimTime p) d)).
Proof.
  intros Hnn Hobj Hcan Hmap. unfold handleNewSenseRequest. monad_unfold.
  set (d1 := set_currentChannelSenseRequest (request, getSimTime p) d).
  change (currentChannelSenseRequest d1) with (request, getSimTime p).
  rewrite (canAnswerCSR_eq (request, getSimTime p) p d1 obj Hnn Hobj).
  change (modeFulfilled obj d1) with (modeFulfilled obj d).
  change (snd (request, getSimTime p)) with (getSimTime p).
  rewrite Hcan.
  rewrite (answerCSR_eq p d1 obj m Hobj (Hmap _)). reflexivity.
Qed.

Lemma handleNewSenseRequest_waits request (p : Phy) d obj :
  request <> null ->
  requests d !! request = Some obj ->
  modeFulfilled obj d || Z.eqb (getSimTime p) (simtime_add (getSimTime p) (getSenseTimeout obj)) = false ->
  handleNewSenseRequest request p d =
  Ok (simtime_add (getSimTime p) (getSenseTimeout obj))
     (set_currentChannelSenseRequest (request, getSimTime p) d).
Proof.
  intros Hnn Hobj Hcan. unfold handleNewSenseRequest. monad_unfold.
  set (d1 := set_currentChannelSenseRequest (request, getSimTime p) d).
  change (currentChannelSenseRequest d1) with (request, getSimTime p).
  rewrite (canAnswerCSR_eq (request, getSimTime p) p d1 obj Hnn Hobj).
  change (modeFulfilled obj d1) with (modeFulfilled obj d).
  change (snd (request, getSimTime p)) with (getSimTime p).
  rewrite Hcan.
  change (requests d1) with (requests d). rewrite Hobj. reflexivity.
Qed.

(** C4, as amended.  A sense request is answered in three places, and each
    of them runs [answerCSR]: at the timeout ([handleSenseRequestTimeout]),
    early on an occupancy flip ([setChannelIdleStatus], after
    [cancelScheduledMessage]) and immediately on arrival
    ([handleNewSenseRequest], after the request is recorded with arrival time
    now).  [answerCSR] passes the arrival time and the current time to
    [findMax] as interval borders (the source: "the maximum value between
    (and including) the interval-borders"): the intensity delivered is
    [findMax] of the accumulated power mapping over the closed interval from
    the request's arrival to now, a negative value replaced by zero.  The
    pair (occupancy flag, intensity) is written to the request, the request
    is passed to [sendControlMsg] once, and the outstanding-request record is
    cleared. *)
Theorem answerCSR_delivers_clamped_maximum (p : Phy) (d : BaseDecider) :
  (handleSenseRequestTimeout p d = answerCSR p d /\
   (forall isIdle,
      canAnswerCSR (currentChannelSenseRequest d) p (set_isChannelIdle isIdle d)
        = Ok true (set_isChannelIdle isIdle d) ->
      setChannelIdleStatus isIdle p d =
      answerCSR p
        (call_phy (cancelScheduledMessage (fst (currentChannelSenseRequest d)))
           (set_isChannelIdle isIdle d))) /\
   (forall request,
      let recorded := set_currentChannelSenseRequest (request, getSimTime p) d in
      canAnswerCSR (request, getSimTime p) p recorded = Ok true recorded ->
      handleNewSenseRequest request p d =
      match answerCSR p recorded with
      | Ok _ d' => Ok (notAgain d) d'
      | Fatal f d' => Fatal f d'
      end)) /\
  (forall request,
     requests d !! fst (currentChannelSenseRequest d) = Some request ->
     channelOk p (snd (currentChannelSenseRequest d)) (getSimTime p) = true ->
     exists rssiMap d',
       calculateRSSIMapping (snd (currentChannelSenseRequest d)) (getSimTime p) null p d
         = Ok rssiMap d /\
       answerCSR p d = Ok tt d' /\
       let intensity :=
         clampNegative
           (findMax rssiMap (snd (currentChannelSenseRequest d)) (getSimTime p)) in
       let content := setResult request (mkChannelState (isChannelIdle d) intensity) in
       phyCalls d' =
         phyCalls d ++ [sendControlMsg (fst (currentChannelSenseRequest d)) content] /\
       requests d' !! fst (currentChannelSenseRequest d) = Some content /\
       fst (currentChannelSenseRequest d') = null /\
       isChannelIdle d' = isChannelIdle d /\
       currentSignal d' = currentSignal d).
Proof.
  split; [split; [reflexivity|split]|].
  - intros isIdle Hcan. unfold setChannelIdleStatus. monad_unfold.
    change (currentChannelSenseRequest (set_isChannelIdle isIdle d))
      with (currentChannelSenseRequest d).
    rewrite Hcan. reflexivity.
  - intros request recorded Hcan. unfold handleNewSenseRequest. monad_unfold.
    fold recorded.
    change (currentChannelSenseRequest recorded) with (request, getSimTime p).
    rewrite Hcan. reflexivity.
  - intros request Hobj Hok.
    destruct (calculateRSSIMapping_ok _ _ null p Hok) as [m Hmap].
    exists m. eexists. split; [apply Hmap|].
    split; [apply (answerCSR_eq p d request m Hobj (Hmap d))|].
    simpl. repeat split. apply lookup_insert_eq.
Qed.

(** C5. While a sense request is outstanding, [handleChannelSenseRequest]
    called with a different request ends the run with [opp_error] and the
    decider untouched: nothing is answered.  Called with the outstanding
    request itself it answers through [answerCSR] and returns [notAgain],
    whatever [canAnswerCSR] evaluates to at that moment. *)
Theorem handleChannelSenseRequest_outstanding
  (p : Phy) (d : BaseDecider) (request : ptr) :
  request <> null ->
  fst (currentChannelSenseRequest d) <> null ->
  (fst (currentChannelSenseRequest d) <> request ->
   handleChannelSenseRequest request p d = Fatal OppError d) /\
  (fst (currentChannelSenseRequest d) = request ->
   forall obj can,
     requests d !! request = Some obj ->
     channelOk p (snd (currentChannelSenseRequest d)) (getSimTime p) = true ->
     canAnswerCSR (currentChannelSenseRequest d) p d = Ok can d ->
     exists rssiMap,
       calculateRSSIMapping (snd (currentChannelSenseRequest d)) (getSimTime p) null p d
         = Ok rssiMap d /\
       handleChannelSenseRequest request p d =
       Ok (notAgain d)
          (answered obj
             (findMax rssiMap (snd (currentChannelSenseRequest d)) (getSimTime p)) d)).
Proof.
  intros Hnn Hout. split.
  - intros Hne. unfold handleChannelSenseRequest. monad_unfold.
    destruct (N.eqb_spec request null) as [E|_]; [contradiction|].
    monad_step.
    destruct (N.eqb_spec (fst (currentChannelSenseRequest d)) null) as [E|_];
      [contradiction|].
    destruct (N.eqb_spec (fst (currentChannelSenseRequest d)) request) as [E|_];
      [contradiction|].
    reflexivity.
  - intros Hsame obj can Hobj Hok _.
    destruct (calculateRSSIMapping_ok _ _ null p Hok) as [m Hmap].
    exists m. split; [apply Hmap|].
    unfold handleChannelSenseRequest, handleSenseRequestTimeout. monad_unfold.
    destruct (N.eqb_spec request null) as [E|_]; [contradiction|].
    monad_step.
    destruct (N.eqb_spec (fst (currentChannelSenseRequest d)) null) as [E|_];
      [contradiction|].
    destruct (N.eqb_spec (fst (currentChannelSenseRequest d)) request) as [_|E];
      [|contradiction].
    monad_step. rewrite <- Hsame in Hobj.
    rewrite (answerCSR_eq p d obj m Hobj (Hmap d)). reflexivity.
Qed.

(** One flip of the occupancy flag.  [setChannelIdleStatus] writes the flag
    and then evaluates [canAnswerCSR] on the outstanding request with the new
    flag.  When it holds, [cancelScheduledMessage] is called for the request
    and then [sendControlMsg], once; the request record is cleared, so that a
    further flip, at any time, only writes the flag and answers nothing.
    When it does not hold, only the flag changes. *)
Lemma setChannelIdleStatus_flip
  (p : Phy) (d : BaseDecider) (isIdle : bool) :
  senseRequestOk p d = true ->
  exists can d',
    canAnswerCSR (currentChannelSenseRequest d) p (set_isChannelIdle isIdle d)
      = Ok can (set_isChannelIdle isIdle d) /\
    setChannelIdleStatus isIdle p d = Ok tt d' /\
    isChannelIdle d' = isIdle /\
    if can then
      exists content,
        phyCalls d' =
          phyCalls d ++ [cancelScheduledMessage (fst (currentChannelSenseRequest d));
                         sendControlMsg (fst (currentChannelSenseRequest d)) content] /\
        fst (currentChannelSenseRequest d') = null /\
        forall isIdle' (p' : Phy),
          setChannelIdleStatus isIdle' p' d' = Ok tt (set_isChannelIdle isIdle' d')
    else d' = set_isChannelIdle isIdle d.
Proof.
  intros Hok. unfold senseRequestOk in Hok.
  destruct (N.eqb_spec (fst (currentChannelSenseRequest d)) null) as [Hnull|Hnn].
  - exists false, (set_isChannelIdle isIdle d).
    rewrite canAnswerCSR_null by exact Hnull.
    rewrite setChannelIdleStatus_no_request by exact Hnull.
    repeat split.
  - destruct (requests d !! fst (currentChannelSenseRequest d)) as [request|] eqn:Hobj;
      [|discriminate].
    destruct (calculateRSSIMapping_ok _ _ null p Hok) as [m Hmap].
    rewrite (canAnswerCSR_eq _ p (set_isChannelIdle isIdle d) request Hnn Hobj).
    destruct (modeFulfilled request (set_isChannelIdle isIdle d)
              || Z.eqb (getSimTime p)
                   (simtime_add (snd (currentChannelSenseRequest d)) (getSenseTimeout request)))
      eqn:Hcan.
    + eexists true, _. split; [reflexivity|].
      rewrite (setChannelIdleStatus_answers isIdle p d request m Hnn Hobj Hcan Hmap).
      split; [reflexivity|]. split; [reflexivity|].
      eexists. split; [|split].
      * simpl. rewrite <- app_assoc. reflexivity.
      * reflexivity.
      * intros isIdle' p'. apply setChannelIdleStatus_no_request. reflexivity.
    + exists false, (set_isChannelIdle isIdle d). split; [reflexivity|].
      rewrite (setChannelIdleStatus_waiting isIdle p d request Hnn Hobj Hcan).
      repeat split.
Qed.

(** ** The reception record *)

Lemma handleNewSenseRequest_currentSignal request (p : Phy) d :
  currentSignal (final (handleNewSenseRequest request p d)) = currentSignal d.
Proof.
  unfold handleNewSenseRequest. monad_unfold.
  set (d1 := set_currentChannelSenseRequest (request, getSimTime p) d).
  pose proof (canAnswerCSR_final (currentChannelSenseRequest d1) p d1) as H.
  destruct (canAnswerCSR _ p d1) as [[|] d'|f d']; simpl in H; subst d'.
  - pose proof (answerCSR_currentSignal p d1) as H.
    destruct (answerCSR p d1); exact H.
  - destruct (requests d1 !! request); reflexivity.
  - reflexivity.
Qed.

Lemma handleChannelSenseRequest_currentSignal request (p : Phy) d :
  currentSignal (final (handleChannelSenseRequest request p d)) = currentSignal d.
Proof.
  unfold handleChannelSenseRequest, handleSenseRequestTimeout. monad_unfold.
  destruct (negb (N.eqb request null)); [|reflexivity].
  destruct (N.eqb (fst (currentChannelSenseRequest d)) null).
  - apply handleNewSenseRequest_currentSignal.
  - destruct (negb (N.eqb (fst (currentChannelSenseRequest d)) request));
      [reflexivity|].
    pose proof (answerCSR_currentSignal p d) as H.
    destruct (answerCSR p d); exact H.
Qed.

Lemma getChannelState_final (p : Phy) d :
  final (getChannelState p d) = d.
Proof.
  unfold getChannelState. monad_unfold.
  pose proof (calcChannelSenseRSSI_final (getSimTime p) (getSimTime p) p d) as H.
  destruct (calcChannelSenseRSSI _ _ p d); exact H.
Qed.

Lemma calculateSnrMapping_final frame (p : Phy) d :
  final (calculateSnrMapping frame p d) = d.
Proof.
  unfold calculateSnrMapping. monad_unfold.
  destruct (airFrames p !! frame) as [obj|]; [|reflexivity].
  match goal with
  | |- context [calculateRSSIMapping ?s ?e ?x p d] =>
      pose proof (calculateRSSIMapping_final s e x p d) as H;
      destruct (calculateRSSIMapping s e x p d)
  end; simpl in H; subst; [|reflexivity].
  destruct (getReceivingPower (getSignal obj)); reflexivity.
Qed.

Lemma processNewSignal_inv frame (p : Phy) d :
  receptionInv d -> receptionInv (final (processNewSignal frame p d)).
Proof.
  intros Hinv. unfold processNewSignal. monad_unfold.
  destruct (negb (N.eqb (fst (currentSignal d)) null)); [exact Hinv|].
  destruct (airFrames p !! frame) as [obj|]; [|exact Hinv].
  destruct (getReceivingPower (getSignal obj)) as [m|]; [|exact Hinv].
  destruct (PrimFloat.ltb _ _); [exact Hinv|].
  pose proof (setChannelIdleStatus_currentSignal false p
                (set_currentSignal (frame, EXPECT_END) d)) as H.
  unfold receptionInv.
  destruct (setChannelIdleStatus false p _); simpl in *; rewrite H; reflexivity.
Qed.

Lemma processSignalEnd_inv frame (p : Phy) d :
  receptionInv (final (processSignalEnd frame p d)).
Proof.
  unfold processSignalEnd. monad_unfold.
  set (d1 := set_currentSignal _ _).
  pose proof (setChannelIdleStatus_currentSignal true p d1) as H.
  unfold receptionInv.
  destruct (setChannelIdleStatus true p d1); simpl in *; rewrite H;
    intros Hnn; contradiction Hnn; reflexivity.
Qed.

(** The dispatch of [processSignal] under the invariant: a null frame fails
    the assertion, an untracked one goes to [processNewSignal], the tracked
    one to [processSignalEnd]. *)
Lemma processSignal_dispatch frame (p : Phy) d :
  receptionInv d ->
  processSignal frame p d =
  if N.eqb frame null then Fatal AssertFailed d
  else if N.eqb frame (fst (currentSignal d)) then processSignalEnd frame p d
  else processNewSignal frame p d.
Proof.
  intros Hinv.
  destruct (N.eqb_spec frame null) as [Hnull|Hnn].
  - unfold processSignal. monad_unfold. subst frame. reflexivity.
  - destruct (N.eqb_spec frame (fst (currentSignal d))) as [Hcur|Hne].
    + apply processSignal_tracked_end; [exact Hnn|].
      unfold receptionInv in Hinv.
      destruct (currentSignal d) as [f st]. simpl in *. subst f.
      rewrite (Hinv Hnn). reflexivity.
    + apply processSignal_untracked; assumption.
Qed.

End Properties.

(** The invariant is kept by every member function, and what follows from it
    for [getSignalState] and [processSignal]. *)
Lemma receptionInv_preserved `{MU : MappingUtils} `{DH : !DeciderHeader}
  (p : Phy) (d : BaseDecider) :
  receptionInv d ->
  (forall frame, receptionInv (final (processSignal frame p d))) /\
  (forall request, receptionInv (final (handleChannelSenseRequest request p d))) /\
  receptionInv (final (getChannelState p d)) /\
  (forall frame, receptionInv (final (calculateSnrMapping frame p d))) /\
  (forall frame, frame <> null ->
     getSignalState frame p d = Ok NEW d \/
     getSignalState frame p d = Ok EXPECT_END d) /\
  (forall (DH' : DeciderHeader) frame,
     @processSignal MU DH' frame p d = @processSignal MU DH frame p d).
Proof.
  intros Hinv. repeat split.
  - intros frame. rewrite processSignal_dispatch by exact Hinv.
    destruct (N.eqb frame null); [exact Hinv|].
    destruct (N.eqb frame (fst (currentSignal d))).
    + apply processSignalEnd_inv.
    + apply processNewSignal_inv. exact Hinv.
  - intros request. unfold receptionInv.
    rewrite handleChannelSenseRequest_currentSignal. exact Hinv.
  - rewrite getChannelState_final. exact Hinv.
  - intros frame. rewrite calculateSnrMapping_final. exact Hinv.
  - intros frame Hnn.
    destruct (N.eq_dec frame (fst (currentSignal d))) as [Hcur|Hne].
    + right. rewrite getSignalState_tracked by exact Hcur.
      rewrite Hinv by (rewrite <- Hcur; exact Hnn). reflexivity.
    + left. apply getSignalState_untracked. exact Hne.
  - intros DH' frame.
    rewrite (@processSignal_dispatch MU DH' frame p d Hinv).
    rewrite (@processSignal_dispatch MU DH frame p d Hinv).
    reflexivity.
Qed.

(** C10. On every decider a run reaches from one with no reception in
    progress, by calls of the member functions with any arguments: a non-null
    [currentSignal.first] has [currentSignal.second = EXPECT_END]; every
    further call keeps this; [getSignalState] of a non-null frame is [NEW] or
    [EXPECT_END]; and [processSignal] behaves the same for every definition
    of [processSignalHeader] and [processUnknownSignal], so neither branch
    is reached. *)
Theorem reachable_receptionInv `{MU : MappingUtils} `{DH : !DeciderHeader}
  (d : BaseDecider) :
  reachable d ->
  receptionInv d /\
  (forall d', call d d' -> receptionInv d') /\
  (forall (p : Phy) frame, frame <> null ->
     getSignalState frame p d = Ok NEW d \/
     getSignalState frame p d = Ok EXPECT_END d) /\
  (forall (DH' : DeciderHeader) (p : Phy) frame,
     @processSignal MU DH' frame p d = @processSignal MU DH frame p d).
Proof.
  intros Hreach.
  assert (Hinv : receptionInv d).
  { induction Hreach as [d Hstart|d d' _ IH Hcall].
    - intros Hnn. contradiction.
    - destruct Hcall as [p frame d|p request d|p d|p frame d];
        apply (receptionInv_preserved p d IH). }
  split; [exact Hinv|]. split; [|split].
  - intros d' Hcall.
    destruct Hcall as [p frame d|p request d|p d|p frame d];
      apply (receptionInv_preserved p d Hinv).
  - intros p. apply (receptionInv_preserved p d Hinv).
  - intros DH' p. apply (receptionInv_preserved p d Hinv).
Qed.

(** ** The empty window *)

Lemma getChannelState_unclamped `{MU : MappingUtils} (p : Phy) (d : BaseDecider) :
  getChannelInfo p (getSimTime p) (getSimTime p) = [] ->
  getThermalNoise p (getSimTime p) (getSimTime p) = None ->
  getChannelState p d =
  Ok (mkChannelState (isChannelIdle d)
        (findMax (createMapping 0%float) (getSimTime p) (getSimTime p))) d.
Proof.
  intros Hnone Hnoise.
  unfold getChannelState, calcChannelSenseRSSI, calculateRSSIMapping. monad_unfold.
  rewrite Hnone, Hnoise. reflexivity.
Qed.

Import Example.

(** C8.  With no frame on air and no thermal noise, on a mapping library
    whose [findMax] returns [-DBL_MAX] on an empty mapping (as the comment in
    [answerCSR] says it does), [getChannelState] hands [-DBL_MAX] to its
    caller, a negative value and not 0; the same window sensed through a
    sense request is answered with 0, [answerCSR] having the clamp that
    [getChannelState] and [calcChannelSenseRSSI] lack. *)
Theorem getChannelState_empty_window_sentinel :
  getChannelState (phyAt 0 []) fresh
    = Ok (mkChannelState true (- DBL_MAX)%float) fresh /\
  calcChannelSenseRSSI 0 0 (phyAt 0 []) fresh = Ok (- DBL_MAX)%float fresh /\
  PrimFloat.ltb (- DBL_MAX)%float 0%float = true /\
  deliveredIntensities (final (handleChannelSenseRequest 8%N (phyAt 0 []) fresh))
    = [0%float].
Proof. repeat split; vm_compute; reflexivity. Qed.

(** ** The scenarios of the spec *)

(** Sensitivity -90, frame A of constant power -85 from t = 0 to t = 10:
    accepted at t = 0 with wake-up 10; at t = 10 handed upward, channel
    idle again. *)
Example scenario_accept_then_deliver :
  processSignal 1%N (phyAt 0 [1%N]) fresh = Ok 10 receivingA /\
  isChannelIdle receivingA = false /\
  (let d := final (processSignal 1%N (phyAt 10 [1%N]) receivingA) in
   phyCalls d = [sendUp 1%N (mkDeciderResult true)] /\
   isChannelIdle d = true /\
   fst (currentSignal d) = null).
Proof. repeat split; vm_compute; reflexivity. Qed.

(** Frame B of power -95 is rejected and the decider stays as it is. *)
Example scenario_reject_weak :
  processSignal 2%N (phyAt 0 [2%N]) fresh = Ok (-1) fresh.
Proof. vm_compute; reflexivity. Qed.

(** An until-idle request on an idle, empty channel is answered at once,
    with intensity 0. *)
Example scenario_sense_idle_channel :
  let o := handleChannelSenseRequest 8%N (phyAt 0 []) fresh in
  (exists d, o = Ok (-1) d) /\
  phyCalls (final o) =
    [sendControlMsg 8%N (setResult untilIdle (mkChannelState true 0%float))] /\
  fst (currentChannelSenseRequest (final o)) = null.
Proof.
  repeat split; try (vm_compute; reflexivity).
  eexists. vm_compute. reflexivity.
Qed.

(** ** Counterexamples *)

(** C4 as stated fails.  The until-busy request 7 arrives at t = 0 on an
    idle channel and waits (wake-up at 10).  Frame C, of power 5, starts at
    t = 5 and is accepted; the flip to busy answers the request.  The
    accumulated mapping has its only key entry at t = 5, so its maximum over
    the half-open interval [0, 5) is 0; the intensity delivered is 5, the
    value at the border t = 5. *)
Lemma answerCSR_includes_upper_border :
  handleChannelSenseRequest 7%N (phyAt 0 []) fresh = Ok 10 sensing /\
  processSignal 3%N (phyAt 5 [3%N]) sensing = Ok 15 sensing_answered /\
  snd (currentChannelSenseRequest sensing) = 0 /\
  sensedPower = Ok (TimeMapping.mk [(5, 5%float)] 0%float) sensing /\
  clampNegative (TimeMapping.findMaxHalfOpen (TimeMapping.mk [(5, 5%float)] 0%float) 0 5)
    = 0%float /\
  deliveredIntensities sensing_answered = [5%float] /\
  deliveredIntensities sensing_answered <>
    [clampNegative
       (TimeMapping.findMaxHalfOpen (TimeMapping.mk [(5, 5%float)] 0%float) 0 5)].
Proof.
  repeat split; try (vm_compute; reflexivity).
  intros H.
  apply (f_equal (fun l => match l with
                           | x :: _ => PrimFloat.ltb 0%float x
                           | [] => false
                           end)) in H.
  vm_compute in H. discriminate H.
Qed.

(** Outside the host's contract.  Request 7 has been answered at t = 5 by
    the flip to busy and its wake-up cancelled; were it delivered all the
    same at t = 10, the decider would take it for a new request and answer it
    again. *)
Example scenario_cancelled_wake_up_delivered :
  List.map fst (controlMsgs (phyCalls sensing_answered)) = [7%N] /\
  List.map fst
    (controlMsgs
       (phyCalls (final (handleChannelSenseRequest 7%N (phyAt 10 [3%N]) sensing_answered))))
  = [7%N; 7%N].
Proof. split; vm_compute; reflexivity. Qed.

(** The end time of a frame accepted near the end of simulated time: the
    64-bit sum has wrapped around. *)
Example scenario_end_time_wraps :
  exists d',
    processSignal 1%N
      (mkPhy 9223372036854775800 (fun _ _ => []) (fun _ _ => None)
         (<[1%N := mkAirFrame (mkSignal 9223372036854775800 10
                                 (Some (constantPower 0 (-85)%float)))]> ∅))
      fresh
    = Ok (-9223372036854775806) d'.
Proof. eexists. vm_compute. reflexivity. Qed.

(** ** Instances on the example runs *)

Ltac not_null := let H := fresh in intros H; vm_compute in H; discriminate H.
Ltac by_run := vm_compute; reflexivity.
Ltac in_range := split; vm_compute; discriminate.

Lemma processSignal_accepts_strong_frame_witness :
  exists d',
    processSignal 1%N (phyAt 0 [1%N]) fresh = Ok 10 d' /\
    currentSignal d' = (1%N, EXPECT_END) /\
    isChannelIdle d' = false.
Proof.
  apply (proj1 (processSignal_accepts_strong_frame
                  (phyAt 0 [1%N]) fresh 1%N frameA (constantPower 0 (-85)%float)
                  ltac:(not_null) ltac:(by_run) ltac:(by_run) ltac:(by_run)
                  ltac:(by_run) ltac:(by_run))).
Defined.

Lemma processSignal_rejects_second_frame_witness :
  processSignal 2%N (phyAt 0 [1%N; 2%N]) receivingA = Ok (-1) receivingA.
Proof.
  apply (processSignal_rejects_second_frame (phyAt 0 [1%N; 2%N]) receivingA 2%N);
    not_null.
Defined.

Lemma processSignal_delivers_at_end_witness :
  exists d' new,
    processSignal 1%N (phyAt 10 [1%N]) receivingA_sensing = Ok (-1) d' /\
    phyCalls d' = phyCalls receivingA_sensing ++ new /\
    sendUps new = [(1%N, mkDeciderResult true)] /\
    fst (currentSignal d') = null /\
    isChannelIdle d' = true.
Proof.
  apply (processSignal_delivers_at_end (phyAt 10 [1%N]) receivingA_sensing 1%N);
    [not_null | by_run | by_run].
Defined.

Lemma processSignal_rejects_weak_frame_witness :
  processSignal 2%N (phyAt 0 [2%N]) fresh = Ok (-1) fresh.
Proof.
  apply (processSignal_rejects_weak_frame
           (phyAt 0 [2%N]) fresh 2%N frameB (constantPower 0 (-95)%float));
    [not_null | by_run | by_run | by_run | by_run].
Defined.

Lemma answerCSR_delivers_clamped_maximum_witness :
  exists rssiMap d',
    calculateRSSIMapping 0 10 null (phyAt 10 [1%N]) receivingA_sensing
      = Ok rssiMap receivingA_sensing /\
    answerCSR (phyAt 10 [1%N]) receivingA_sensing = Ok tt d' /\
    phyCalls d' =
      [sendControlMsg 8%N
         (setResult untilIdle
            (mkChannelState false (clampNegative (findMax rssiMap 0 10))))] /\
    requests d' !! 8%N =
      Some (setResult untilIdle
              (mkChannelState false (clampNegative (findMax rssiMap 0 10)))) /\
    fst (currentChannelSenseRequest d') = null /\
    isChannelIdle d' = false /\
    currentSignal d' = (1%N, EXPECT_END).
Proof.
  apply (proj2 (answerCSR_delivers_clamped_maximum
                  (phyAt 10 [1%N]) receivingA_sensing) untilIdle); by_run.
Defined.

Lemma handleChannelSenseRequest_outstanding_witness :
  handleChannelSenseRequest 7%N (phyAt 3 [1%N]) receivingA_sensing
    = Fatal OppError receivingA_sensing /\
  canAnswerCSR (8%N, 0) (phyAt 3 [1%N]) receivingA_sensing
    = Ok false receivingA_sensing /\
  exists rssiMap,
    calculateRSSIMapping 0 3 null (phyAt 3 [1%N]) receivingA_sensing
      = Ok rssiMap receivingA_sensing /\
    handleChannelSenseRequest 8%N (phyAt 3 [1%N]) receivingA_sensing =
    Ok (-1) (answered untilIdle (findMax rssiMap 0 3) receivingA_sensing).
Proof.
  split; [|split; [by_run|]].
  - apply (handleChannelSenseRequest_outstanding
             (phyAt 3 [1%N]) receivingA_sensing 7%N); not_null.
  - apply (proj2 (handleChannelSenseRequest_outstanding
                    (phyAt 3 [1%N]) receivingA_sensing 8%N
                    ltac:(not_null) ltac:(not_null))
             ltac:(by_run) untilIdle false); by_run.
Defined.

Lemma reachable_receptionInv_witness :
  receptionInv receivingA_sensing /\
  (forall d', call receivingA_sensing d' -> receptionInv d') /\
  (forall (p : Phy) frame, frame <> null ->
     getSignalState frame p receivingA_sensing = Ok NEW receivingA_sensing \/
     getSignalState frame p receivingA_sensing = Ok EXPECT_END receivingA_sensing) /\
  (forall (DH' : DeciderHeader) (p : Phy) frame,
     @processSignal TimeMappingUtils DH' frame p receivingA_sensing =
     @processSignal TimeMappingUtils SpecHeader frame p receivingA_sensing).
Proof.
  apply (reachable_receptionInv receivingA_sensing).
  apply (reachable_call receivingA).
  - apply (reachable_call fresh).
    + apply reachable_start. reflexivity.
    + apply (call_processSignal (phyAt 0 [1%N]) 1%N fresh).
  - apply (call_handleChannelSenseRequest (phyAt 0 [1%N]) 8%N receivingA).
Defined.

(** * Whole calls *)

(** ** What each call can leave behind *)

Lemma calculateRSSIMapping_cases `{MU : MappingUtils}
  start end_ exclude (p : Phy) (d : BaseDecider) :
  (exists m, calculateRSSIMapping start end_ exclude p d = Ok m d) \/
  (exists f, calculateRSSIMapping start end_ exclude p d = Fatal f d).
Proof.
  pose proof (calculateRSSIMapping_final start end_ exclude p d) as H.
  destruct (calculateRSSIMapping start end_ exclude p d) as [m d'|f d'];
    simpl in H; subst d'; [left|right]; eexists; reflexivity.
Qed.

Lemma canAnswerCSR_true `{MU : MappingUtils} requestInfo (p : Phy) d d' :
  canAnswerCSR requestInfo p d = Ok true d' -> fst requestInfo <> null.
Proof.
  intros H Hnull. rewrite canAnswerCSR_null in H by exact Hnull. discriminate H.
Qed.

Lemma answerCSR_shape `{MU : MappingUtils} (p : Phy) (d : BaseDecider) :
  final (answerCSR p d) = d \/
  exists request rssiValue,
    requests d !! fst (currentChannelSenseRequest d) = Some request /\
    final (answerCSR p d) = answered request rssiValue d.
Proof.
  unfold answerCSR. monad_unfold.
  pose proof (calcChannelSenseRSSI_final
                (snd (currentChannelSenseRequest d)) (getSimTime p) p d) as H.
  destruct (calcChannelSenseRSSI _ _ p d) as [r d'|f d']; simpl in H; subst d'.
  - destruct (requests d !! fst (currentChannelSenseRequest d)) as [request|] eqn:E.
    + right. exists request, r. split; reflexivity.
    + left. reflexivity.
  - left. reflexivity.
Qed.

Lemma setChannelIdleStatus_shape `{MU : MappingUtils} isIdle (p : Phy) (d : BaseDecider) :
  afterFlip isIdle d (final (setChannelIdleStatus isIdle p d)).
Proof.
  unfold afterFlip, setChannelIdleStatus. monad_unfold.
  change (currentChannelSenseRequest (set_isChannelIdle isIdle d))
    with (currentChannelSenseRequest d).
  pose proof (canAnswerCSR_final (currentChannelSenseRequest d)
                p (set_isChannelIdle isIdle d)) as H.
  destruct (canAnswerCSR _ p (set_isChannelIdle isIdle d)) as [[|] d'|f d'] eqn:Hcan;
    simpl in H; subst d'.
  - pose proof (canAnswerCSR_true _ _ _ _ Hcan) as Hnn.
    set (d2 := call_phy _ (set_isChannelIdle isIdle d)).
    destruct (answerCSR_shape p d2) as [Hsame|(request & rssi & Hobj & Hans)].
    + right. left. split; [exact Hnn|exact Hsame].
    + right. right. exists request, rssi. repeat split; assumption.
  - left. reflexivity.
  - left. reflexivity.
Qed.

Lemma processSignal_shape `{MU : MappingUtils} `{DH : !DeciderHeader}
  frame (p : Phy) (d : BaseDecider) :
  receptionInv d ->
  afterProcessSignal frame d (final (processSignal frame p d)).
Proof.
  intros Hinv. rewrite processSignal_dispatch by exact Hinv.
  unfold afterProcessSignal.
  destruct (N.eqb_spec frame null) as [Hnull|Hnn]; [left; reflexivity|].
  destruct (N.eqb_spec frame (fst (currentSignal d))) as [Hcur|Hne].
  - right. right. split; [exact Hnn|]. split; [exact Hcur|].
    unfold processSignalEnd. monad_unfold.
    set (d0 := set_currentSignal _ _).
    pose proof (setChannelIdleStatus_shape true p d0) as H.
    destruct (setChannelIdleStatus true p d0); exact H.
  - unfold processNewSignal. monad_unfold.
    destruct (N.eqb_spec (fst (currentSignal d)) null) as [Hfree|Hbusy];
      [|left; reflexivity].
    cbv beta iota delta [negb].
    destruct (airFrames p !! frame) as [obj|]; [|left; reflexivity].
    destruct (getReceivingPower (getSignal obj)) as [m|]; [|left; reflexivity].
    destruct (PrimFloat.ltb _ _); [left; reflexivity|].
    right. left. split; [exact Hnn|]. split; [exact Hfree|].
    pose proof (setChannelIdleStatus_shape false p
                  (set_currentSignal (frame, EXPECT_END) d)) as H.
    destruct (setChannelIdleStatus false p _); exact H.
Qed.

Lemma handleChannelSenseRequest_shape `{MU : MappingUtils}
  request (p : Phy) (d : BaseDecider) :
  afterSenseRequest request (getSimTime p) d
    (final (handleChannelSenseRequest request p d)).
Proof.
  unfold afterSenseRequest, handleChannelSenseRequest, handleSenseRequestTimeout.
  monad_unfold.
  destruct (N.eqb_spec request null) as [Hnull|Hnn]; [left; reflexivity|].
  cbv beta iota delta [negb].
  destruct (N.eqb_spec (fst (currentChannelSenseRequest d)) null) as [Hfree|Hout].
  - unfold handleNewSenseRequest. monad_unfold.
    set (d1 := set_currentChannelSenseRequest (request, getSimTime p) d).
    pose proof (canAnswerCSR_final (currentChannelSenseRequest d1) p d1) as H.
    destruct (canAnswerCSR _ p d1) as [[|] d'|f d']; simpl in H; subst d'.
    + destruct (answerCSR_shape p d1) as [Hsame|(obj & rssi & Hobj & Hans)].
      * right. right. split; [exact Hfree|]. split; [exact Hnn|]. left.
        destruct (answerCSR p d1); exact Hsame.
      * right. right. split; [exact Hfree|]. split; [exact Hnn|]. right.
        exists obj, rssi. split; [exact Hobj|].
        destruct (answerCSR p d1); exact Hans.
    + right. right. split; [exact Hfree|]. split; [exact Hnn|]. left.
      destruct (requests d1 !! request); reflexivity.
    + right. right. split; [exact Hfree|]. split; [exact Hnn|]. left. reflexivity.
  - destruct (N.eqb_spec (fst (currentChannelSenseRequest d)) request) as [Hsame|Hne];
      [|left; reflexivity].
    cbv beta iota.
    destruct (answerCSR_shape p d) as [Hid|(obj & rssi & Hobj & Hans)].
    + left. destruct (answerCSR p d); exact Hid.
    + right. left. exists obj, rssi. rewrite Hsame in Hobj.
      repeat split; try assumption.
      destruct (answerCSR p d); exact Hans.
Qed.

(** ** The summary of a call *)

Lemma answered_requestKind request rssiValue (d : BaseDecider) r :
  requests d !! fst (currentChannelSenseRequest d) = Some request ->
  requestKind <$> requests (answered request rssiValue d) !! r =
  requestKind <$> requests d !! r.
Proof.
  intros Hobj.
  change (requests (answered request rssiValue d))
    with (<[fst (currentChannelSenseRequest d) :=
              setResult request
                (mkChannelState (isChannelIdle d) (clampNegative rssiValue))]>
            (requests d)).
  destruct (decide (fst (currentChannelSenseRequest d) = r)) as [<-|Hne].
  - rewrite lookup_insert_eq.
    transitivity (requestKind <$> Some request); [reflexivity|].
    f_equal. symmetry. exact Hobj.
  - rewrite lookup_insert_ne by exact Hne. reflexivity.
Qed.

Lemma eqb_null_false (x : ptr) : x <> null -> N.eqb x null = false.
Proof. intros H. destruct (N.eqb_spec x null); [contradiction|reflexivity]. Qed.

Ltac summary_fields :=
  constructor;
  [ reflexivity
  | reflexivity
  | simpl; rewrite <- ?app_assoc, ?app_nil_r; reflexivity
  | idtac | idtac | idtac | idtac | idtac ].

Lemma afterProcessSignal_summary frame (d d' : BaseDecider) :
  afterProcessSignal frame d d' -> exists new, CallSummary d d' new.
Proof.
  intros [->|[(Hnn & Hfree & Hflip)|(Hnn & Hcur & Hflip)]].
  - exists []. summary_fields; auto.
  - destruct Hflip as [->|[(Hout & ->)|(request & rssi & Hout & Hobj & ->)]].
    + exists []. summary_fields; auto.
      intros _. simpl. symmetry. apply eqb_null_false. exact Hnn.
    + exists [cancelScheduledMessage (fst (currentChannelSenseRequest d))].
      summary_fields; auto.
      intros _. simpl. symmetry. apply eqb_null_false. exact Hnn.
    + eexists [cancelScheduledMessage (fst (currentChannelSenseRequest d));
               sendControlMsg (fst (currentChannelSenseRequest d)) _].
      summary_fields; auto.
      * intros r. apply (answered_requestKind request rssi
                           (call_phy _ (set_isChannelIdle false
                              (set_currentSignal (frame, EXPECT_END) d))) r Hobj).
      * right. eexists _, _. split; [exact Hout|]. split; [reflexivity|].
        split; [reflexivity|]. split; [apply lookup_insert_eq|reflexivity].
      * intros _. simpl. symmetry. apply eqb_null_false. exact Hnn.
  - assert (Hfirst : fst (currentSignal d) <> null) by (rewrite <- Hcur; exact Hnn).
    destruct Hflip as [->|[(Hout & ->)|(request & rssi & Hout & Hobj & ->)]].
    + exists [sendUp frame (mkDeciderResult true)]. summary_fields; auto.
      right. rewrite <- Hcur. auto.
    + exists [sendUp frame (mkDeciderResult true);
              cancelScheduledMessage (fst (currentChannelSenseRequest d))].
      summary_fields; auto.
      right. rewrite <- Hcur. auto.
    + eexists [sendUp frame (mkDeciderResult true);
               cancelScheduledMessage (fst (currentChannelSenseRequest d));
               sendControlMsg (fst (currentChannelSenseRequest d)) _].
      summary_fields; auto.
      * intros r. apply (answered_requestKind request rssi
                           (call_phy _ (set_isChannelIdle true
                              (set_currentSignal (null, snd (currentSignal d))
                                 (call_phy (sendUp frame (mkDeciderResult true)) d))))
                           r Hobj).
      * right. rewrite <- Hcur. auto.
      * right. eexists _, _. split; [exact Hout|]. split; [reflexivity|].
        split; [reflexivity|]. split; [apply lookup_insert_eq|reflexivity].
Qed.

Lemma afterSenseRequest_summary request now (d d' : BaseDecider) :
  afterSenseRequest request now d d' -> exists new, CallSummary d d' new.
Proof.
  intros [->|[(obj & rssi & Hsame & Hnn & Hobj & ->)
             |(Hfree & Hnn & [->|(obj & rssi & Hobj & ->)])]].
  - exists []. summary_fields; auto.
  - eexists [sendControlMsg (fst (currentChannelSenseRequest d)) _].
    rewrite <- Hsame in Hobj, Hnn.
    summary_fields; auto.
    + intros r. apply (answered_requestKind obj rssi d r Hobj).
    + right. eexists _, _. split; [exact Hnn|]. split; [reflexivity|].
      split; [reflexivity|]. split; [apply lookup_insert_eq|reflexivity].
  - exists []. summary_fields; auto.
  - eexists [sendControlMsg request _].
    summary_fields; auto.
    + intros r. apply (answered_requestKind obj rssi
                         (set_currentChannelSenseRequest (request, now) d) r Hobj).
    + right. eexists _, _. split; [exact Hnn|]. split; [reflexivity|].
      split; [reflexivity|]. split; [apply lookup_insert_eq|reflexivity].
Qed.

(** Every call from a decider that obeys the reception invariant has a
    summary. *)
Lemma call_summary `{MU : MappingUtils} `{DH : !DeciderHeader} (d d' : BaseDecider) :
  receptionInv d -> call d d' -> exists new, CallSummary d d' new.
Proof.
  intros Hinv Hcall.
  destruct Hcall as [p frame d|p request d|p d|p frame d].
  - apply (afterProcessSignal_summary frame). apply processSignal_shape. exact Hinv.
  - apply (afterSenseRequest_summary request (getSimTime p)).
    apply handleChannelSenseRequest_shape.
  - rewrite getChannelState_final. exists []. summary_fields; auto.
  - rewrite calculateSnrMapping_final. exists []. summary_fields; auto.
Qed.

Lemma call_receptionInv `{MU : MappingUtils} `{DH : !DeciderHeader} (d d' : BaseDecider) :
  receptionInv d -> call d d' -> receptionInv d'.
Proof.
  intros Hinv Hcall.
  destruct Hcall as [p frame d|p request d|p d|p frame d];
    apply (receptionInv_preserved p d Hinv).
Qed.

Lemma calls_receptionInv `{MU : MappingUtils} `{DH : !DeciderHeader} (d0 d : BaseDecider) :
  fst (currentSignal d0) = null -> calls d0 d -> receptionInv d.
Proof.
  intros Hstart Hrun. induction Hrun as [d|d d' d'' _ IH Hcall].
  - intros Hnn. contradiction.
  - apply (call_receptionInv d' d'' (IH Hstart) Hcall).
Qed.

(** ** Runs *)

(** X1. In every run that starts with no reception in progress and the
    channel idle, the occupancy flag says exactly whether a reception is in
    progress: [isChannelIdle] is true if and only if [currentSignal.first] is
    null, after every call, also one that ended the run. *)
Theorem occupancy_tracks_reception `{MU : MappingUtils} `{DH : !DeciderHeader}
  (d0 d : BaseDecider) :
  fst (currentSignal d0) = null ->
  isChannelIdle d0 = true ->
  calls d0 d ->
  isChannelIdle d = N.eqb (fst (currentSignal d)) null.
Proof.
  intros Hstart Hidle Hrun. induction Hrun as [d|d d' d'' Hrun IH Hcall].
  - rewrite Hstart, Hidle. reflexivity.
  - destruct (call_summary d' d'' (calls_receptionInv d d' Hstart Hrun) Hcall)
      as [new Hsum].
    apply (summary_occupancy _ _ _ Hsum). apply IH; assumption.
Qed.

(** X2. A run never changes what the constructor set ([sensitivity],
    [notAgain]), never takes back a call made on [phy] (the calls made so far
    stay a prefix), and never changes the sense mode or the timeout of a
    request object, nor creates or removes one: only results are written. *)
Theorem calls_keep_configuration `{MU : MappingUtils} `{DH : !DeciderHeader}
  (d0 d : BaseDecider) :
  fst (currentSignal d0) = null ->
  calls d0 d ->
  sensitivity d = sensitivity d0 /\
  notAgain d = notAgain d0 /\
  (exists new, phyCalls d = phyCalls d0 ++ new) /\
  (forall r, requestKind <$> requests d !! r = requestKind <$> requests d0 !! r).
Proof.
  intros Hstart Hrun. induction Hrun as [d|d d' d'' Hrun IH Hcall].
  - repeat split. exists []. rewrite app_nil_r. reflexivity.
  - destruct (IH Hstart) as (Hs & Hn & (old & Hc) & Hr).
    destruct (call_summary d' d'' (calls_receptionInv d d' Hstart Hrun) Hcall)
      as [new [Hs' Hn' Hc' Hr' _ _ _ _]].
    repeat split.
    + rewrite Hs'. exact Hs.
    + rewrite Hn'. exact Hn.
    + exists (old ++ new). rewrite Hc', Hc, app_assoc. reflexivity.
    + intros r. rewrite Hr'. apply Hr.
Qed.

(** ** Single calls *)

(** X3. A call hands upward at most one frame, and only the frame that was
    the current reception when the call began, with a positive result; the
    reception record is empty afterwards. *)
Theorem sendUp_only_current_reception `{MU : MappingUtils} `{DH : !DeciderHeader}
  (d d' : BaseDecider) :
  receptionInv d ->
  call d d' ->
  exists new,
    phyCalls d' = phyCalls d ++ new /\
    (sendUps new = [] \/
     (fst (currentSignal d) <> null /\
      sendUps new = [(fst (currentSignal d), mkDeciderResult true)] /\
      fst (currentSignal d') = null)).
Proof.
  intros Hinv Hcall.
  destruct (call_summary d d' Hinv Hcall) as [new Hsum].
  exists new. split.
  - apply (summary_phyCalls _ _ _ Hsum).
  - apply (summary_sendUp _ _ _ Hsum).
Qed.

(** X4. A call answers at most one sense request.  When it answers one, the
    request is not null, the outstanding-request record is empty afterwards,
    the request object holds the content that was sent, and the occupancy
    reported in it is the flag as the call leaves it. *)
Theorem at_most_one_answer `{MU : MappingUtils} `{DH : !DeciderHeader}
  (d d' : BaseDecider) :
  receptionInv d ->
  call d d' ->
  exists new,
    phyCalls d' = phyCalls d ++ new /\
    (controlMsgs new = [] \/
     exists r content,
       r <> null /\
       controlMsgs new = [(r, content)] /\
       fst (currentChannelSenseRequest d') = null /\
       requests d' !! r = Some content /\
       isIdle (getResult content) = isChannelIdle d').
Proof.
  intros Hinv Hcall.
  destruct (call_summary d d' Hinv Hcall) as [new Hsum].
  exists new. split.
  - apply (summary_phyCalls _ _ _ Hsum).
  - apply (summary_controlMsg _ _ _ Hsum).
Qed.

(** X5. A call cancels at most one scheduled message, and only that of the
    request that was outstanding when the call began, never a null one. *)
Theorem cancel_only_outstanding_request `{MU : MappingUtils} `{DH : !DeciderHeader}
  (d d' : BaseDecider) :
  receptionInv d ->
  call d d' ->
  exists new,
    phyCalls d' = phyCalls d ++ new /\
    (cancels new = [] \/
     (fst (currentChannelSenseRequest d) <> null /\
      cancels new = [fst (currentChannelSenseRequest d)])).
Proof.
  intros Hinv Hcall.
  destruct (call_summary d d' Hinv Hcall) as [new Hsum].
  exists new. split.
  - apply (summary_phyCalls _ _ _ Hsum).
  - apply (summary_cancel _ _ _ Hsum).
Qed.

(** X6. [handleChannelSenseRequest] does not touch the reception: whatever
    the request and however the call ends, [currentSignal] and
    [isChannelIdle] are as before, no frame is handed upward and no
    scheduled message is cancelled. *)
Theorem handleChannelSenseRequest_keeps_reception `{MU : MappingUtils}
  (p : Phy) (d : BaseDecider) (request : ptr) :
  let d' := final (handleChannelSenseRequest request p d) in
  currentSignal d' = currentSignal d /\
  isChannelIdle d' = isChannelIdle d /\
  exists new,
    phyCalls d' = phyCalls d ++ new /\ sendUps new = [] /\ cancels new = [].
Proof.
  intros d'. subst d'.
  destruct (handleChannelSenseRequest_shape request p d)
    as [->|[(obj & rssi & Hsame & Hnn & Hobj & ->)
           |(Hfree & Hnn & [->|(obj & rssi & Hobj & ->)])]].
  - repeat split. exists []. rewrite app_nil_r. repeat split.
  - repeat split. eexists [_]. repeat split.
  - repeat split. exists []. rewrite app_nil_r. repeat split.
  - repeat split. eexists [_]. repeat split.
Qed.

(** ** Sense requests, from arrival to answer *)

(** X7. A new sense request (none outstanding) is answered at once exactly
    when its mode is already fulfilled or its timeout is zero: then the
    answer covers the instant of arrival alone and [notAgain] is returned.
    Otherwise the request is recorded with the current time as its arrival,
    nothing is asked of [phy], and the wake-up returned is now + timeout,
    the 64-bit sum.  The current time and the timeout are 64-bit values. *)
Theorem handleChannelSenseRequest_new_request `{MU : MappingUtils}
  (p : Phy) (d : BaseDecider) (request : ptr) (obj : ChannelSenseRequest) :
  request <> null ->
  fst (currentChannelSenseRequest d) = null ->
  requests d !! request = Some obj ->
  representable (getSimTime p) ->
  representable (getSenseTimeout obj) ->
  channelOk p (getSimTime p) (getSimTime p) = true ->
  let recorded := set_currentChannelSenseRequest (request, getSimTime p) d in
  exists rssiMap,
    calculateRSSIMapping (getSimTime p) (getSimTime p) null p d = Ok rssiMap d /\
    handleChannelSenseRequest request p d =
    if modeFulfilled obj d || Z.eqb (getSenseTimeout obj) 0
    then Ok (notAgain d)
            (answered obj (findMax rssiMap (getSimTime p) (getSimTime p)) recorded)
    else Ok (simtime_add (getSimTime p) (getSenseTimeout obj)) recorded.
Proof.
  intros Hnn Hfree Hobj Hnow Htimeout Hok recorded.
  destruct (calculateRSSIMapping_ok _ _ null p Hok) as [m Hmap].
  exists m. split; [apply Hmap|].
  pose proof (simtime_add_eqb _ _ Hnow Htimeout) as Htime.
  unfold handleChannelSenseRequest. monad_unfold.
  destruct (N.eqb_spec request null) as [E|_]; [contradiction|].
  cbv beta iota delta [negb]. rewrite Hfree. rewrite N.eqb_refl.
  destruct (modeFulfilled obj d || Z.eqb (getSenseTimeout obj) 0) eqn:Hcan;
    rewrite <- Htime in Hcan.
  - apply (handleNewSenseRequest_answers request p d obj m Hnn Hobj Hcan Hmap).
  - apply (handleNewSenseRequest_waits request p d obj Hnn Hobj Hcan).
Qed.

(** X8. An answer given on an occupancy flip at an instant that is not
    arrival + timeout reports the state the request waited for: an
    until-idle request is answered by a flip to idle only and the answer
    says idle, an until-busy request by a flip to busy only and the answer
    says busy; a request of any other mode is not answered by a flip. *)
Theorem early_answer_reports_requested_state `{MU : MappingUtils}
  (p : Phy) (d : BaseDecider) (isIdle : bool) (request : ChannelSenseRequest) :
  fst (currentChannelSenseRequest d) <> null ->
  requests d !! fst (currentChannelSenseRequest d) = Some request ->
  getSimTime p <> simtime_add (snd (currentChannelSenseRequest d)) (getSenseTimeout request) ->
  channelOk p (snd (currentChannelSenseRequest d)) (getSimTime p) = true ->
  let flagOnly := Ok tt (set_isChannelIdle isIdle d) in
  let answeredWith (idle : bool) :=
    isIdle = idle /\
    exists rssiValue,
      let d' :=
        answered request rssiValue
          (call_phy (cancelScheduledMessage (fst (currentChannelSenseRequest d)))
             (set_isChannelIdle isIdle d)) in
      setChannelIdleStatus isIdle p d = Ok tt d' /\
      getResult <$> requests d' !! fst (currentChannelSenseRequest d) =
        Some (mkChannelState idle (clampNegative rssiValue)) in
  match getSenseMode request with
  | UNTIL_IDLE =>
      if isIdle then answeredWith true else setChannelIdleStatus isIdle p d = flagOnly
  | UNTIL_BUSY =>
      if isIdle then setChannelIdleStatus isIdle p d = flagOnly else answeredWith false
  | UNTIL_OTHER => setChannelIdleStatus isIdle p d = flagOnly
  end.
Proof.
  intros Hnn Hobj Htime Hok flagOnly answeredWith.
  destruct (calculateRSSIMapping_ok _ _ null p Hok) as [m Hmap].
  assert (Hneq : Z.eqb (getSimTime p)
                   (simtime_add (snd (currentChannelSenseRequest d)) (getSenseTimeout request))
                 = false) by (apply Z.eqb_neq; exact Htime).
  assert (Hyes : modeFulfilled request (set_isChannelIdle isIdle d) = true ->
                 answeredWith isIdle).
  { intros Hmode. split; [reflexivity|].
    eexists. split.
    - apply (setChannelIdleStatus_answers isIdle p d request m Hnn Hobj
               ltac:(rewrite Hmode; reflexivity) Hmap).
    - change (requests (answered request
                (findMax m (snd (currentChannelSenseRequest d)) (getSimTime p))
                (call_phy (cancelScheduledMessage (fst (currentChannelSenseRequest d)))
                   (set_isChannelIdle isIdle d))))
        with (<[fst (currentChannelSenseRequest d) :=
                  setResult request
                    (mkChannelState isIdle
                       (clampNegative
                          (findMax m (snd (currentChannelSenseRequest d))
                             (getSimTime p))))]> (requests d)).
      rewrite lookup_insert_eq. reflexivity. }
  assert (Hno : modeFulfilled request (set_isChannelIdle isIdle d) = false ->
                setChannelIdleStatus isIdle p d = flagOnly).
  { intros Hmode.
    apply (setChannelIdleStatus_waiting isIdle p d request Hnn Hobj).
    rewrite Hmode, Hneq. reflexivity. }
  unfold modeFulfilled in Hyes, Hno.
  destruct (getSenseMode request), isIdle; simpl in Hyes, Hno; auto.
Qed.

(** ** The accumulated power mapping *)

Lemma sumReceivingPower_filter `{MU : MappingUtils}
  its exclude x resultMap (p p' : Phy) (d : BaseDecider) :
  airFrames p' = airFrames p ->
  exclude <> null ->
  x = exclude \/ x = null ->
  sumReceivingPower its exclude resultMap p d =
  sumReceivingPower (List.filter (fun it => negb (N.eqb it exclude)) its)
    x resultMap p' d.
Proof.
  intros Hstore Hnn Hx. revert resultMap.
  induction its as [|it rest IH]; intros resultMap; [reflexivity|].
  simpl. destruct (N.eqb_spec it exclude) as [Heq|Hne]; simpl.
  - monad_unfold. subst it.
    rewrite (eqb_null_false exclude Hnn). simpl. apply IH.
  - monad_unfold. destruct (N.eqb_spec it null) as [Hnull|Hitnn]; simpl;
      [reflexivity|].
    assert (Hskip : N.eqb it x = false).
    { destruct Hx as [->| ->]; apply N.eqb_neq; assumption. }
    rewrite Hskip, Hstore.
    destruct (airFrames p !! it) as [obj|]; simpl; [|reflexivity].
    destruct (getReceivingPower (getSignal obj)); [apply IH|reflexivity].
Qed.

Lemma sumReceivingPower_fold `{MU : MappingUtils}
  its exclude resultMap (p : Phy) (d : BaseDecider) :
  forallb (frameOk p) its = true ->
  sumReceivingPower its exclude resultMap p d =
  Ok (fold_left (fun total recvPowerMap => addOutOfRange recvPowerMap total 0%float)
        (receivingPowers p exclude its) resultMap) d.
Proof.
  revert resultMap. induction its as [|it rest IH]; intros resultMap Hok;
    [reflexivity|].
  simpl in Hok. apply andb_true_iff in Hok as [Hit Hrest].
  unfold frameOk in Hit. apply andb_true_iff in Hit as [Hnn Hobj].
  simpl. monad_unfold. rewrite Hnn. simpl.
  destruct (N.eqb it exclude); [apply IH; exact Hrest|].
  destruct (airFrames p !! it) as [obj|]; [|discriminate]. simpl.
  destruct (getReceivingPower (getSignal obj)) as [m|]; [|discriminate].
  simpl. apply IH. exact Hrest.
Qed.

Lemma sumReceivingPower_returns `{MU : MappingUtils}
  its resultMap (p : Phy) (d d' : BaseDecider) m :
  sumReceivingPower its null resultMap p d = Ok m d' ->
  forallb (frameOk p) its = true.
Proof.
  revert resultMap. induction its as [|it rest IH]; intros resultMap H;
    [reflexivity|].
  simpl in H.
  cbv beta iota delta [bind ret this phy modify abort assert deref] in H.
  simpl. unfold frameOk at 1.
  destruct (N.eqb it null) eqn:Hnull; simpl in *; [discriminate H|].
  destruct (airFrames p !! it) as [obj|]; simpl in *; [|discriminate H].
  destruct (getReceivingPower (getSignal obj)); [|discriminate H].
  apply (IH _ H).
Qed.

(** X9. Excluding a non-null frame from the accumulated mapping is the same
    as that frame not being on the air: [calculateRSSIMapping] with
    [exclude] gives what it gives without exclusion on a channel whose info
    does not list the frame, result and faults alike. *)
Theorem exclusion_is_absence `{MU : MappingUtils}
  (p : Phy) (d : BaseDecider) (start end_ : simtime_t) (exclude : ptr) :
  exclude <> null ->
  calculateRSSIMapping start end_ exclude p d =
  calculateRSSIMapping start end_ null (withoutFrame exclude p) d.
Proof.
  intros Hnn. unfold calculateRSSIMapping. monad_unfold.
  apply sumReceivingPower_filter; [reflexivity|exact Hnn|right; reflexivity].
Qed.

(** X10. On a readable channel the accumulated mapping is the empty mapping,
    plus the thermal noise when there is some, with the receiving power of
    every air frame of the window other than [exclude] added on top in the
    order of the channel info, each sum taken with 0 as its out-of-range
    value; the decider is not changed. *)
Theorem calculateRSSIMapping_sums_in_order `{MU : MappingUtils}
  (p : Phy) (d : BaseDecider) (start end_ : simtime_t) (exclude : ptr) :
  channelOk p start end_ = true ->
  calculateRSSIMapping start end_ exclude p d =
  Ok (fold_left (fun total recvPowerMap => addOutOfRange recvPowerMap total 0%float)
        (receivingPowers p exclude (getChannelInfo p start end_))
        (noiseFloor p start end_)) d.
Proof.
  intros Hok. unfold calculateRSSIMapping. monad_unfold.
  apply (sumReceivingPower_fold _ exclude _ p d Hok).
Qed.

(** X11. Without exclusion, [calculateRSSIMapping] returns a mapping exactly
    when every air frame listed for the window is not null, has an object
    behind it and carries a receiving-power mapping; otherwise it ends the
    run. *)
Theorem calculateRSSIMapping_returns_iff_readable `{MU : MappingUtils}
  (p : Phy) (d : BaseDecider) (start end_ : simtime_t) :
  (exists m, calculateRSSIMapping start end_ null p d = Ok m d) <->
  channelOk p start end_ = true.
Proof.
  split.
  - intros [m H]. unfold calculateRSSIMapping in H.
    cbv beta iota delta [bind ret this phy modify abort assert deref] in H.
    apply (sumReceivingPower_returns _ _ p d d m H).
  - intros Hok. destruct (calculateRSSIMapping_ok start end_ null p Hok) as [m Hm].
    exists m. apply Hm.
Qed.

(** X12. A frame does not interfere with itself: the SNR mapping of a
    non-null frame is the same whether or not the channel info lists the
    frame itself. *)
Theorem calculateSnrMapping_ignores_own_listing `{MU : MappingUtils}
  (p : Phy) (d : BaseDecider) (frame : ptr) :
  frame <> null ->
  calculateSnrMapping frame p d =
  calculateSnrMapping frame (withoutFrame frame p) d.
Proof.
  intros Hnn. unfold calculateSnrMapping, calculateRSSIMapping. monad_unfold.
  change (airFrames (withoutFrame frame p)) with (airFrames p).
  destruct (airFrames p !! frame) as [obj|]; [|reflexivity].
  change (getThermalNoise (withoutFrame frame p)) with (getThermalNoise p).
  change (getChannelInfo (withoutFrame frame p)
            (getSignalStart (getSignal obj))
            (simtime_add (getSignalStart (getSignal obj)) (getSignalLength (getSignal obj))))
    with (List.filter (fun it => negb (N.eqb it frame))
            (getChannelInfo p (getSignalStart (getSignal obj))
               (simtime_add (getSignalStart (getSignal obj)) (getSignalLength (getSignal obj))))).
  rewrite (sumReceivingPower_filter _ frame frame _ p (withoutFrame frame p) d
             eq_refl Hnn (or_introl eq_refl)).
  destruct (sumReceivingPower _ frame _ (withoutFrame frame p) d); [|reflexivity].
  destruct (getReceivingPower (getSignal obj)); reflexivity.
Qed.

(** X13. For a frame with an object and a receiving-power mapping, on a
    readable channel, the SNR mapping is the frame's receiving power divided
    by the accumulated mapping of its own window, from [signalStart] to the
    64-bit sum [signalStart + signalLength], without the frame, with 0 where
    the divisor is zero; the decider is not changed. *)
Theorem calculateSnrMapping_divides_by_interference `{MU : MappingUtils}
  (p : Phy) (d : BaseDecider) (frame : ptr) (obj : AirFrame) (recvPowerMap : Mapping) :
  airFrames p !! frame = Some obj ->
  getReceivingPower (getSignal obj) = Some recvPowerMap ->
  let start := getSignalStart (getSignal obj) in
  let end_ := simtime_add start (getSignalLength (getSignal obj)) in
  channelOk p start end_ = true ->
  calculateSnrMapping frame p d =
  Ok (divide recvPowerMap
        (fold_left (fun total other => addOutOfRange other total 0%float)
           (receivingPowers p frame (getChannelInfo p start end_))
           (noiseFloor p start end_))
        0%float) d.
Proof.
  intros Hobj Hmap start end_ Hok.
  unfold calculateSnrMapping. monad_unfold. rewrite Hobj. monad_unfold.
  fold start. fold end_.
  rewrite (calculateRSSIMapping_sums_in_order p d start end_ frame Hok).
  rewrite Hmap. reflexivity.
Qed.

(** ** Calls one after the other *)

Lemma handleChannelSenseRequest_new `{MU : MappingUtils}
  request (p : Phy) (d : BaseDecider) :
  request <> null ->
  fst (currentChannelSenseRequest d) = null ->
  handleChannelSenseRequest request p d = handleNewSenseRequest request p d.
Proof.
  intros Hnn Hfree. unfold handleChannelSenseRequest. monad_unfold.
  rewrite (eqb_null_false request Hnn). cbv beta iota delta [negb].
  rewrite Hfree, N.eqb_refl. reflexivity.
Qed.

Lemma handleChannelSenseRequest_same `{MU : MappingUtils}
  request (p : Phy) (d : BaseDecider) :
  request <> null ->
  fst (currentChannelSenseRequest d) = request ->
  handleChannelSenseRequest request p d =
  match answerCSR p d with
  | Ok _ d' => Ok (notAgain d) d'
  | Fatal f d' => Fatal f d'
  end.
Proof.
  intros Hnn Hsame.
  unfold handleChannelSenseRequest, handleSenseRequestTimeout. monad_unfold.
  rewrite (eqb_null_false request Hnn). cbv beta iota delta [negb].
  rewrite Hsame, (eqb_null_false request Hnn), N.eqb_refl. reflexivity.
Qed.

(** X14. A reception from start to end, with no sense request outstanding:
    a strong frame arriving on a decider with no reception is accepted, the
    time returned is the 64-bit sum of the signal's start and length, and the
    channel is busy; the next call for that frame, at whatever time, hands
    it upward once and returns [notAgain], and the decider is then the one
    before the reception with the channel idle, the reception record
    [(null, EXPECT_END)] and the one [sendUp] added to its calls. *)
Theorem reception_round_trip `{MU : MappingUtils} `{DH : !DeciderHeader}
  (p p' : Phy) (d : BaseDecider) (frame : ptr) (obj : AirFrame)
  (recvPowerMap : Mapping) :
  frame <> null ->
  fst (currentSignal d) = null ->
  fst (currentChannelSenseRequest d) = null ->
  airFrames p !! frame = Some obj ->
  getReceivingPower (getSignal obj) = Some recvPowerMap ->
  PrimFloat.leb (sensitivity d)
    (getValue recvPowerMap (getSignalStart (getSignal obj))) = true ->
  let receiving := set_isChannelIdle false (set_currentSignal (frame, EXPECT_END) d) in
  processSignal frame p d =
    Ok (simtime_add (getSignalStart (getSignal obj)) (getSignalLength (getSignal obj))) receiving /\
  processSignal frame p' receiving =
    Ok (notAgain d)
       (call_phy (sendUp frame (mkDeciderResult true))
          (set_isChannelIdle true (set_currentSignal (null, EXPECT_END) d))).
Proof.
  intros Hnn Hfree Hnone Hobj Hmap Hpow receiving. split.
  - rewrite processSignal_untracked by (rewrite ?Hfree; assumption).
    unfold processNewSignal. monad_unfold.
    rewrite Hfree. simpl. rewrite Hobj. monad_unfold. rewrite Hmap. monad_unfold.
    rewrite (leb_not_ltb _ _ Hpow).
    rewrite (setChannelIdleStatus_no_request false p
               (set_currentSignal (frame, EXPECT_END) d) Hnone).
    reflexivity.
  - rewrite (processSignal_tracked_end frame p' receiving Hnn eq_refl).
    unfold processSignalEnd. monad_unfold.
    rewrite setChannelIdleStatus_no_request by exact Hnone.
    reflexivity.
Qed.

(** X15. A sense request from arrival to timeout: a new request whose mode
    is not fulfilled and whose timeout is not zero is recorded and waits, the
    wake-up returned being the 64-bit sum of the current time and the timeout
    (both 64-bit values); the next call with the same request, at whatever time, answers it over the
    interval from the recorded arrival time to the time of that call and
    returns [notAgain]. *)
Theorem sense_request_timeout_cycle `{MU : MappingUtils}
  (p p' : Phy) (d : BaseDecider) (request : ptr) (obj : ChannelSenseRequest) :
  request <> null ->
  fst (currentChannelSenseRequest d) = null ->
  requests d !! request = Some obj ->
  modeFulfilled obj d = false ->
  getSenseTimeout obj <> 0 ->
  representable (getSimTime p) ->
  representable (getSenseTimeout obj) ->
  channelOk p' (getSimTime p) (getSimTime p') = true ->
  let waiting := set_currentChannelSenseRequest (request, getSimTime p) d in
  exists rssiMap,
    handleChannelSenseRequest request p d
      = Ok (simtime_add (getSimTime p) (getSenseTimeout obj)) waiting /\
    calculateRSSIMapping (getSimTime p) (getSimTime p') null p' waiting
      = Ok rssiMap waiting /\
    handleChannelSenseRequest request p' waiting
      = Ok (notAgain d)
           (answered obj (findMax rssiMap (getSimTime p) (getSimTime p')) waiting).
Proof.
  intros Hnn Hfree Hobj Hmode Htimeout Hnow Hrange Hok waiting.
  destruct (calculateRSSIMapping_ok _ _ null p' Hok) as [m Hmap].
  exists m. split; [|split].
  - rewrite (handleChannelSenseRequest_new request p d Hnn Hfree).
    apply (handleNewSenseRequest_waits request p d obj Hnn Hobj).
    rewrite Hmode, (simtime_add_eqb _ _ Hnow Hrange). apply Z.eqb_neq, Htimeout.
  - apply Hmap.
  - rewrite (handleChannelSenseRequest_same request p' waiting Hnn eq_refl).
    rewrite (answerCSR_eq p' waiting obj m Hobj (Hmap waiting)). reflexivity.
Qed.

(** ** The decider and its host *)

Lemma answerCSR_returns `{MU : MappingUtils} (p : Phy) (d d' : BaseDecider) u :
  answerCSR p d = Ok u d' ->
  exists request rssiValue,
    requests d !! fst (currentChannelSenseRequest d) = Some request /\
    d' = answered request rssiValue d.
Proof.
  intros H.
  destruct (answerCSR_shape p d) as [Hsame|(request & rssi & Hobj & Hans)].
  - exfalso. revert H Hsame. unfold answerCSR. monad_unfold.
    pose proof (calcChannelSenseRSSI_final
                  (snd (currentChannelSenseRequest d)) (getSimTime p) p d) as Hf.
    destruct (calcChannelSenseRSSI _ _ p d) as [r d1|f d1]; simpl in Hf; subst d1;
      [|discriminate].
    destruct (requests d !! fst (currentChannelSenseRequest d)) as [request|];
      [|discriminate].
    intros _ Hsame. simpl in Hsame.
    apply (f_equal phyCalls) in Hsame. simpl in Hsame.
    apply (f_equal (@List.length _)) in Hsame. rewrite length_app in Hsame.
    simpl in Hsame. lia.
  - exists request, rssi. split; [exact Hobj|]. rewrite H in Hans. exact Hans.
Qed.

Lemma setChannelIdleStatus_returns `{MU : MappingUtils}
  isIdle (p : Phy) (d d' : BaseDecider) u :
  setChannelIdleStatus isIdle p d = Ok u d' ->
  (d' = set_isChannelIdle isIdle d /\
   canAnswerCSR (currentChannelSenseRequest d) p d' = Ok false d') \/
  (fst (currentChannelSenseRequest d) <> null /\
   exists request rssiValue,
     requests d !! fst (currentChannelSenseRequest d) = Some request /\
     d' = answered request rssiValue
            (call_phy (cancelScheduledMessage (fst (currentChannelSenseRequest d)))
               (set_isChannelIdle isIdle d))).
Proof.
  unfold setChannelIdleStatus. monad_unfold.
  change (currentChannelSenseRequest (set_isChannelIdle isIdle d))
    with (currentChannelSenseRequest d).
  pose proof (canAnswerCSR_final (currentChannelSenseRequest d)
                p (set_isChannelIdle isIdle d)) as H.
  destruct (canAnswerCSR _ p (set_isChannelIdle isIdle d)) as [[|] d1|f d1] eqn:Hcan;
    simpl in H; subst d1.
  - pose proof (canAnswerCSR_true _ _ _ _ Hcan) as Hnn.
    set (d2 := call_phy _ (set_isChannelIdle isIdle d)).
    destruct (answerCSR p d2) as [u' d3|f d3] eqn:Hans; [|discriminate].
    intros E. injection E as _ <-.
    destruct (answerCSR_returns p d2 d3 u' Hans) as (request & rssi & Hobj & ->).
    right. split; [exact Hnn|]. exists request, rssi. split; [exact Hobj|reflexivity].
  - intros E. injection E as _ <-. left. split; [reflexivity|exact Hcan].
  - discriminate.
Qed.

Lemma controlMsgs_app (a b : list PhyCall) :
  controlMsgs (a ++ b) = controlMsgs a ++ controlMsgs b.
Proof. unfold controlMsgs. apply flat_map_app. Qed.

Lemma afterFlip_returns `{MU : MappingUtils}
  isIdle (p : Phy) (d d0 d' : BaseDecider) u before :
  notAgain d0 = notAgain d ->
  currentChannelSenseRequest d0 = currentChannelSenseRequest d ->
  requests d0 = requests d ->
  phyCalls d0 = phyCalls d ++ before ->
  cancels before = [] -> controlMsgs before = [] ->
  setChannelIdleStatus isIdle p d0 = Ok u d' ->
  (quietCall d d' /\
   canAnswerCSR (currentChannelSenseRequest d) p d' = Ok false d') \/
  (fst (currentChannelSenseRequest d) <> null /\
   answeringCall (fst (currentChannelSenseRequest d))
     [fst (currentChannelSenseRequest d)] d d').
Proof.
  intros Hn Hc Hr Hp Hcb Hmb Hflip.
  destruct (setChannelIdleStatus_returns isIdle p d0 d' u Hflip)
    as [(-> & Hcan)|(Hnn & request & rssi & Hobj & ->)].
  - left. rewrite Hc in Hcan. split; [|exact Hcan].
    split; [exact Hn|]. split; [exact Hc|]. split; [exact Hr|].
    exists before. split; [exact Hp|]. split; assumption.
  - right. rewrite Hc in *. split; [exact Hnn|].
    split; [exact Hn|]. split; [reflexivity|].
    eexists (before ++ [cancelScheduledMessage _; sendControlMsg _ _]), _.
    split; [|split].
    + simpl. rewrite Hp, Hc. rewrite <- !app_assoc. reflexivity.
    + unfold cancels in *. rewrite flat_map_app, Hcb. reflexivity.
    + rewrite controlMsgs_app, Hmb. reflexivity.
Qed.

Lemma quietCall_refl (d : BaseDecider) : quietCall d d.
Proof.
  repeat split. exists []. rewrite app_nil_r. repeat split.
Qed.

Lemma processSignal_returns `{MU : MappingUtils} `{DH : !DeciderHeader}
  frame (p : Phy) (d d' : BaseDecider) t :
  receptionInv d ->
  processSignal frame p d = Ok t d' ->
  (quietCall d d' /\
   (d' = d \/ canAnswerCSR (currentChannelSenseRequest d) p d' = Ok false d')) \/
  (fst (currentChannelSenseRequest d) <> null /\
   answeringCall (fst (currentChannelSenseRequest d))
     [fst (currentChannelSenseRequest d)] d d').
Proof.
  intros Hinv. rewrite processSignal_dispatch by exact Hinv.
  destruct (N.eqb_spec frame null) as [Hnull|Hnn]; [discriminate|].
  destruct (N.eqb_spec frame (fst (currentSignal d))) as [Hcur|Hne].
  - unfold processSignalEnd. monad_unfold.
    set (d0 := set_currentSignal _ _).
    destruct (setChannelIdleStatus true p d0) as [u d1|f d1] eqn:Hflip; [|discriminate].
    intros E. injection E as _ <-.
    destruct (afterFlip_returns true p d d0 d1 u [sendUp frame (mkDeciderResult true)]
                eq_refl eq_refl eq_refl eq_refl eq_refl eq_refl Hflip) as [[Hq Hcan]|Ha].
    + left. split; [exact Hq|right; exact Hcan].
    + right. exact Ha.
  - unfold processNewSignal. monad_unfold.
    destruct (N.eqb_spec (fst (currentSignal d)) null) as [Hfree|Hbusy].
    2:{ cbv beta iota delta [negb]. intros E. injection E as _ <-.
        left. split; [apply quietCall_refl|left; reflexivity]. }
    cbv beta iota delta [negb].
    destruct (airFrames p !! frame) as [obj|]; [|discriminate].
    destruct (getReceivingPower (getSignal obj)) as [m|]; [|discriminate].
    destruct (PrimFloat.ltb _ _).
    { intros E. injection E as _ <-.
      left. split; [apply quietCall_refl|left; reflexivity]. }
    set (d0 := set_currentSignal _ _).
    destruct (setChannelIdleStatus false p d0) as [u d1|f d1] eqn:Hflip; [|discriminate].
    intros E. injection E as _ <-.
    destruct (afterFlip_returns false p d d0 d1 u []
                eq_refl eq_refl eq_refl (eq_sym (app_nil_r _)) eq_refl eq_refl Hflip)
      as [[Hq Hcan]|Ha].
    + left. split; [exact Hq|right; exact Hcan].
    + right. exact Ha.
Qed.

Lemma answered_answeringCall request rssiValue (d : BaseDecider) :
  answeringCall (fst (currentChannelSenseRequest d)) [] d (answered request rssiValue d).
Proof.
  split; [reflexivity|]. split; [reflexivity|].
  eexists [sendControlMsg _ _], _. repeat split.
Qed.

Lemma handleChannelSenseRequest_returns `{MU : MappingUtils}
  request (p : Phy) (d d' : BaseDecider) t :
  handleChannelSenseRequest request p d = Ok t d' ->
  request <> null /\
  ((fst (currentChannelSenseRequest d) = request /\
    t = notAgain d /\ answeringCall request [] d d') \/
   (fst (currentChannelSenseRequest d) = null /\
    ((t = notAgain d /\ answeringCall request [] d d') \/
     exists obj,
       requests d !! request = Some obj /\
       modeFulfilled obj d = false /\
       t = simtime_add (getSimTime p) (getSenseTimeout obj) /\
       d' = set_currentChannelSenseRequest (request, getSimTime p) d))).
Proof.
  unfold handleChannelSenseRequest, handleSenseRequestTimeout. monad_unfold.
  destruct (N.eqb_spec request null) as [Hnull|Hnn]; [discriminate|].
  cbv beta iota delta [negb]. intros H. split; [exact Hnn|]. revert H.
  destruct (N.eqb_spec (fst (currentChannelSenseRequest d)) null) as [Hfree|Hout].
  - unfold handleNewSenseRequest. monad_unfold.
    set (d1 := set_currentChannelSenseRequest (request, getSimTime p) d).
    change (currentChannelSenseRequest d1) with (request, getSimTime p).
    pose proof (canAnswerCSR_final (request, getSimTime p) p d1) as H.
    destruct (canAnswerCSR _ p d1) as [[|] d2|f d2] eqn:Hcan; simpl in H; subst d2;
      [| |discriminate].
    + destruct (answerCSR p d1) as [u d2|f d2] eqn:Hans; [|discriminate].
      intros E. injection E as <- <-.
      destruct (answerCSR_returns p d1 d2 u Hans) as (obj & rssi & Hobj & ->).
      right. split; [exact Hfree|]. left. split; [reflexivity|].
      apply (answered_answeringCall obj rssi d1).
    + destruct (requests d1 !! request) as [obj|] eqn:Hobj; [|discriminate].
      intros E. injection E as <- <-.
      right. split; [exact Hfree|]. right. exists obj.
      split; [exact Hobj|].
      rewrite (canAnswerCSR_eq (request, getSimTime p) p d1 obj Hnn Hobj) in Hcan.
      injection Hcan as Hcan. apply orb_false_elim in Hcan as [Hmode _].
      split; [exact Hmode|]. split; reflexivity.
  - destruct (N.eqb_spec (fst (currentChannelSenseRequest d)) request) as [Hsame|Hne];
      [|discriminate].
    cbv beta iota.
    destruct (answerCSR p d) as [u d2|f d2] eqn:Hans; [|discriminate].
    intros E. injection E as <- <-.
    destruct (answerCSR_returns p d d2 u Hans) as (obj & rssi & Hobj & ->).
    left. split; [exact Hsame|]. split; [reflexivity|].
    rewrite <- Hsame. apply answered_answeringCall.
Qed.

Lemma newCalls_app (d d' : BaseDecider) new :
  phyCalls d' = phyCalls d ++ new -> newCalls d d' = new.
Proof. intros H. unfold newCalls. rewrite H. apply drop_app_length. Qed.

Lemma answeredRequests_app (d d' : BaseDecider) new :
  phyCalls d' = phyCalls d ++ new ->
  answeredRequests d' = answeredRequests d ++ List.map fst (controlMsgs new).
Proof.
  intros H. unfold answeredRequests. rewrite H, controlMsgs_app. apply List.map_app.
Qed.

Lemma mayCall_elim (h : Hosted) now :
  mayCall h now = true ->
  clock h <= now /\ forall request t, pending h = Some (request, t) -> now <= t.
Proof.
  unfold mayCall. intros H. apply andb_prop in H as [H1 H2].
  split; [apply Z.leb_le, H1|].
  intros request t E. rewrite E in H2. apply Z.leb_le, H2.
Qed.

(** What a call that answers nothing keeps. *)
Lemma hostInv_quiet (h h' : Hosted) :
  hostInv h ->
  quietCall (decider h) (decider h') ->
  receptionInv (decider h') ->
  (forall obj,
     requests (decider h) !! fst (currentChannelSenseRequest (decider h)) = Some obj ->
     fst (currentChannelSenseRequest (decider h)) <> null ->
     modeFulfilled obj (decider h') = false) ->
  clock h <= clock h' ->
  (forall request t, pending h = Some (request, t) -> clock h' <= t) ->
  pending h' = afterCancels (pending h) (newCalls (decider h) (decider h')) ->
  submitted h' = submitted h ->
  hostInv h' /\
  answeredRequests (decider h') = answeredRequests (decider h) /\
  pending h' = pending h.
Proof.
  intros (Hrec & Hneg & Hclock & Hsub & Hpend) (Hn & Hc & Hr & new & Hp & Hcn & Hmn)
         Hrec' Hmode Hle Hwake Hpend' Hsub'.
  rewrite (newCalls_app _ _ new Hp) in Hpend'. unfold afterCancels in Hpend'.
  rewrite Hcn in Hpend'.
  assert (Hsame : pending h' = pending h).
  { rewrite Hpend'. destruct (pending h) as [[r w]|]; reflexivity. }
  assert (Hans : answeredRequests (decider h') = answeredRequests (decider h)).
  { rewrite (answeredRequests_app _ _ new Hp), Hmn. apply app_nil_r. }
  split; [|split; assumption].
  unfold hostInv. rewrite Hn, Hc, Hr, Hans, Hsub'.
  unfold pendingRequests. rewrite Hsame.
  split; [exact Hrec'|]. split; [exact Hneg|]. split; [lia|]. split; [exact Hsub|].
  destruct (pending h) as [[r w]|] eqn:E; [|exact Hpend].
  destruct Hpend as (Hnn & Hcur & Hcw & obj & Hobj & Hm & Hw).
  split; [exact Hnn|]. split; [exact Hcur|]. split; [apply (Hwake r w eq_refl)|].
  exists obj. split; [exact Hobj|]. split; [|exact Hw].
  apply Hmode; rewrite Hcur; assumption.
Qed.

(** What a call that answers the outstanding request leaves. *)
Lemma hostInv_answering (h h' : Hosted) request cancelled :
  hostInv h ->
  fst (currentChannelSenseRequest (decider h)) = request ->
  request <> null ->
  answeringCall request cancelled (decider h) (decider h') ->
  receptionInv (decider h') ->
  clock h <= clock h' ->
  pending h' = None ->
  submitted h' = submitted h ->
  hostInv h' /\
  answeredRequests (decider h') = answeredRequests (decider h) ++ [request].
Proof.
  intros (Hrec & Hneg & Hclock & Hsub & Hpend) Hcur Hnn
         (Hn & Hc & new & content & Hp & Hcn & Hmn) Hrec' Hle Hpend' Hsub'.
  assert (Hans : answeredRequests (decider h')
                 = answeredRequests (decider h) ++ [request]).
  { rewrite (answeredRequests_app _ _ new Hp), Hmn. reflexivity. }
  split; [|exact Hans].
  unfold hostInv, pendingRequests. rewrite Hn, Hans, Hsub', Hpend', app_nil_r.
  split; [exact Hrec'|]. split; [exact Hneg|]. split; [lia|]. split; [|exact Hc].
  rewrite Hsub. f_equal. unfold pendingRequests.
  destruct (pending h) as [[r w]|].
  - destruct Hpend as (_ & Hr & _). rewrite <- Hr, Hcur. reflexivity.
  - rewrite Hpend in Hcur. symmetry in Hcur. contradiction.
Qed.

Lemma Ok_final {A} (o : Outcome A) a d : o = Ok a d -> final o = d.
Proof. intros ->. reflexivity. Qed.

Lemma hostStep_inv `{MU : MappingUtils} `{DH : !DeciderHeader} (h h' : Hosted) :
  hostInv h ->
  hostStep h h' ->
  hostInv h' /\
  clock h <= clock h' /\
  ((answeredRequests (decider h') = answeredRequests (decider h) /\
    forall wake, pending h = Some wake -> pending h' = Some wake) \/
   exists request,
     answeredRequests (decider h') = answeredRequests (decider h) ++ [request]).
Proof.
  intros Hinv Hstep.
  pose proof Hinv as (Hrec & Hneg & Hclock & Hsub & Hpend).
  destruct Hstep as [h h' p frame t Hmay Hrun Hc Hp Hs
                    |h h' p request t Hnone Hmay Htime Hrun Hc Hp Hs
                    |h h' p request t Hwake Hrun Hc Hp Hs
                    |h h' p state Hmay Hrun Hc Hp Hs
                    |h h' p frame snrMap Hmay Hrun Hc Hp Hs].
  - apply mayCall_elim in Hmay as [Hle Hw]. rewrite <- Hc in Hle, Hw.
    assert (Hrec' : receptionInv (decider h')).
    { rewrite <- (Ok_final _ _ _ Hrun).
      apply (proj1 (receptionInv_preserved p (decider h) Hrec)). }
    destruct (processSignal_returns frame p _ _ t Hrec Hrun) as [[Hq Hcan]|[Hnn Ha]].
    + destruct (hostInv_quiet h h' Hinv Hq Hrec') as (Hinv' & Hans & Hsame);
        try assumption.
      * intros obj Hobj Hnn. destruct Hcan as [->|Hcan].
        -- destruct (pending h) as [[r w]|].
           ++ destruct Hpend as (_ & Hr & _ & obj' & Hobj' & Hm & _).
              rewrite Hr, Hobj' in Hobj. injection Hobj as <-. exact Hm.
           ++ contradiction.
        -- destruct Hq as (_ & _ & Hr & _). rewrite <- Hr in Hobj.
           rewrite (canAnswerCSR_eq _ p (decider h') obj Hnn Hobj) in Hcan.
           injection Hcan as Hcan. apply orb_false_elim in Hcan as [Hm _]. exact Hm.
      * split; [exact Hinv'|]. split; [exact Hle|]. left. split; [exact Hans|].
        intros wake E. rewrite Hsame. exact E.
    + assert (Hnone : pending h' = None).
      { destruct Ha as (_ & _ & new & content & Hnew & Hcn & _).
        rewrite Hp, (newCalls_app _ _ new Hnew). unfold afterCancels. rewrite Hcn.
        destruct (pending h) as [[r w]|]; [|reflexivity].
        destruct Hpend as (_ & Hr & _). rewrite Hr. simpl.
        rewrite N.eqb_refl. reflexivity. }
      destruct (hostInv_answering h h' _ _ Hinv eq_refl Hnn Ha Hrec' Hle Hnone Hs)
        as [Hinv' Hans].
      split; [exact Hinv'|]. split; [exact Hle|]. right. eexists. exact Hans.
  - apply mayCall_elim in Hmay as [Hle _]. rewrite <- Hc in Hle.
    rewrite Hnone in Hpend.
    assert (Hrec' : receptionInv (decider h')).
    { rewrite <- (Ok_final _ _ _ Hrun).
      apply (proj1 (proj2 (receptionInv_preserved p (decider h) Hrec))). }
    destruct (handleChannelSenseRequest_returns request p _ _ t Hrun)
      as (Hnn & [(Hsame & _)|(_ & [(-> & Ha)|(obj & Hobj & Hm & -> & Hd)])]).
    + rewrite Hpend in Hsame. symmetry in Hsame. contradiction.
    + destruct Ha as (Hn & Hcsr & new & content & Hnew & _ & Hmn).
      assert (Hans : answeredRequests (decider h')
                     = answeredRequests (decider h) ++ [request]).
      { rewrite (answeredRequests_app _ _ new Hnew), Hmn. reflexivity. }
      unfold afterReturn in Hp. rewrite Z.eqb_refl in Hp.
      split; [|split; [exact Hle|right; eexists; exact Hans]].
      unfold hostInv, pendingRequests. rewrite Hn, Hans, Hs, Hp, app_nil_r.
      split; [exact Hrec'|]. split; [exact Hneg|]. split; [lia|]. split; [|exact Hcsr].
      rewrite Hsub. unfold pendingRequests. rewrite Hnone, app_nil_r. reflexivity.
    + unfold timeoutOk in Htime. rewrite Hobj in Htime.
      apply andb_prop in Htime as [Ht1 Ht2].
      apply Z.leb_le in Ht1, Ht2.
      assert (Hexact : simtime_add (getSimTime p) (getSenseTimeout obj)
                       = getSimTime p + getSenseTimeout obj).
      { apply simtime_add_exact. unfold representable, INT64_MIN.
        unfold simtime_t in *. lia. }
      assert (Hans : answeredRequests (decider h') = answeredRequests (decider h)).
      { rewrite Hd. reflexivity. }
      unfold afterReturn in Hp.
      destruct (Z.eqb_spec (simtime_add (getSimTime p) (getSenseTimeout obj))
                  (notAgain (decider h))) as [E|_].
      { exfalso. rewrite Hexact in E. unfold simtime_t in *. lia. }
      split; [|split; [exact Hle|left; split; [exact Hans|]]].
      * unfold hostInv, pendingRequests. rewrite Hans, Hs, Hp, Hd.
        split; [rewrite <- Hd; exact Hrec'|]. split; [exact Hneg|].
        split; [lia|]. split.
        { rewrite Hsub. unfold pendingRequests. rewrite Hnone, app_nil_r. reflexivity. }
        split; [exact Hnn|]. split; [reflexivity|].
        split; [rewrite Hc, Hexact; unfold simtime_t in *; lia|].
        exists obj. split; [exact Hobj|]. split; [exact Hm|reflexivity].
      * intros wake E. rewrite Hnone in E. discriminate E.
  - rewrite Hwake in Hpend.
    destruct Hpend as (Hnn & Hcur & Hle & _). rewrite <- Hc in Hle.
    assert (Hrec' : receptionInv (decider h')).
    { rewrite <- (Ok_final _ _ _ Hrun).
      apply (proj1 (proj2 (receptionInv_preserved p (decider h) Hrec))). }
    destruct (handleChannelSenseRequest_returns request p _ _ t Hrun)
      as (_ & [(_ & -> & Ha)|(Hfree & _)]).
    + unfold afterReturn in Hp. rewrite Z.eqb_refl in Hp.
      destruct (hostInv_answering h h' _ _ Hinv Hcur Hnn Ha Hrec' Hle Hp Hs)
        as [Hinv' Hans].
      split; [exact Hinv'|]. split; [exact Hle|]. right. eexists. exact Hans.
    + rewrite Hfree in Hcur. symmetry in Hcur. contradiction.
  - apply mayCall_elim in Hmay as [Hle Hw]. rewrite <- Hc in Hle, Hw.
    apply Ok_final in Hrun. rewrite getChannelState_final in Hrun.
    destruct (hostInv_quiet h h' Hinv) as (Hinv' & Hans & Hsame); try assumption.
    + rewrite <- Hrun. apply quietCall_refl.
    + rewrite <- Hrun. exact Hrec.
    + rewrite <- Hrun. intros obj Hobj Hnn.
      destruct (pending h) as [[r w]|].
      * destruct Hpend as (_ & Hr & _ & obj' & Hobj' & Hm & _).
        rewrite Hr, Hobj' in Hobj. injection Hobj as <-. exact Hm.
      * contradiction.
    + rewrite <- Hrun. unfold newCalls. rewrite drop_all. rewrite Hp.
      destruct (pending h) as [[r w]|]; reflexivity.
    + split; [exact Hinv'|]. split; [exact Hle|]. left. split; [exact Hans|].
      intros wake E. rewrite Hsame. exact E.
  - apply mayCall_elim in Hmay as [Hle Hw]. rewrite <- Hc in Hle, Hw.
    apply Ok_final in Hrun. rewrite calculateSnrMapping_final in Hrun.
    destruct (hostInv_quiet h h' Hinv) as (Hinv' & Hans & Hsame); try assumption.
    + rewrite <- Hrun. apply quietCall_refl.
    + rewrite <- Hrun. exact Hrec.
    + rewrite <- Hrun. intros obj Hobj Hnn.
      destruct (pending h) as [[r w]|].
      * destruct Hpend as (_ & Hr & _ & obj' & Hobj' & Hm & _).
        rewrite Hr, Hobj' in Hobj. injection Hobj as <-. exact Hm.
      * contradiction.
    + rewrite <- Hrun. unfold newCalls. rewrite drop_all. rewrite Hp.
      destruct (pending h) as [[r w]|]; reflexivity.
    + split; [exact Hinv'|]. split; [exact Hle|]. left. split; [exact Hans|].
      intros wake E. rewrite Hsame. exact E.
Qed.

Lemma hostStep_clock `{MU : MappingUtils} `{DH : !DeciderHeader}
  (h h' : Hosted) request t :
  hostStep h h' -> pending h = Some (request, t) -> clock h' <= t.
Proof.
  intros Hstep Hpend.
  destruct Hstep as [h h' p frame t' Hmay _ Hc _ _
                    |h h' p request' t' Hnone _ _ _ _ _ _
                    |h h' p request' t' Hwake _ Hc _ _
                    |h h' p state Hmay _ Hc _ _
                    |h h' p frame snrMap Hmay _ Hc _ _].
  - rewrite Hc. apply (proj2 (mayCall_elim h _ Hmay) request t Hpend).
  - rewrite Hnone in Hpend. discriminate Hpend.
  - rewrite Hwake in Hpend. injection Hpend as _ <-. rewrite Hc. lia.
  - rewrite Hc. apply (proj2 (mayCall_elim h _ Hmay) request t Hpend).
  - rewrite Hc. apply (proj2 (mayCall_elim h _ Hmay) request t Hpend).
Qed.

Lemma hostStart_inv (h : Hosted) : hostStart h -> hostInv h.
Proof.
  intros (Hcur & Hcsr & Hpend & Hsub & Hneg & Hclock).
  unfold hostInv, pendingRequests. rewrite Hpend, app_nil_r.
  split; [intros Hnn; contradiction|]. repeat split; assumption.
Qed.

Lemma hostRun_inv `{MU : MappingUtils} `{DH : !DeciderHeader} (h h' : Hosted) :
  hostInv h ->
  hostRun h h' ->
  hostInv h' /\
  clock h <= clock h' /\
  exists more,
    answeredRequests (decider h') = answeredRequests (decider h) ++ more /\
    (more = [] -> forall wake, pending h = Some wake -> pending h' = Some wake).
Proof.
  intros Hinv Hrun. induction Hrun as [h|h h' h'' _ IH Hstep].
  - split; [exact Hinv|]. split; [lia|]. exists []. rewrite app_nil_r.
    split; [reflexivity|]. intros _ wake E. exact E.
  - destruct (IH Hinv) as (Hinv' & Hle & more & Hans & Hsame).
    destruct (hostStep_inv h' h'' Hinv' Hstep)
      as (Hinv'' & Hle' & [(Hans' & Hsame')|(request & Hans')]).
    + split; [exact Hinv''|]. split; [lia|]. exists more.
      rewrite Hans'. split; [exact Hans|].
      intros Hnil wake E. apply Hsame', (Hsame Hnil), E.
    + split; [exact Hinv''|]. split; [lia|]. exists (more ++ [request]).
      rewrite Hans', Hans, <- app_assoc. split; [reflexivity|].
      intros Hnil. destruct more; discriminate Hnil.
Qed.

Lemma hostInv_canAnswerCSR `{MU : MappingUtils} (h : Hosted) request t (p : Phy) :
  hostInv h ->
  pending h = Some (request, t) ->
  canAnswerCSR (currentChannelSenseRequest (decider h)) p (decider h)
  = Ok (Z.eqb (getSimTime p) t) (decider h).
Proof.
  intros (_ & _ & _ & _ & Hpend) E. rewrite E in Hpend.
  destruct Hpend as (Hnn & Hcur & _ & obj & Hobj & Hm & ->).
  rewrite <- Hcur in Hnn, Hobj.
  rewrite (canAnswerCSR_eq _ p (decider h) obj Hnn Hobj), Hm. reflexivity.
Qed.

(** C6. In a run with its host, from a start with no sense request
    outstanding: the requests handed to [sendControlMsg], in order, followed
    by the request still waiting, are exactly the requests the host has
    passed, in order; so each request passed is answered once and none twice.
    The scheduler holds a wake-up exactly for the outstanding request: the
    wake-up of a request answered early has been cancelled and is not
    delivered.  And every flip of the occupancy flag evaluates [canAnswerCSR]
    on the outstanding request with the new flag at once; when it holds,
    [cancelScheduledMessage] is called for the request and then
    [sendControlMsg], and the record is cleared, so that a later flip only
    writes the flag; when it does not hold, only the flag changes. *)
Theorem sense_request_answered_once `{MU : MappingUtils} `{DH : !DeciderHeader}
  (h0 h : Hosted) :
  hostStart h0 ->
  hostRun h0 h ->
  let d := decider h in
  submitted h = answeredRequests d ++ pendingRequests h /\
  pendingRequests h
  = (if N.eqb (fst (currentChannelSenseRequest d)) null then []
     else [fst (currentChannelSenseRequest d)]) /\
  forall (p : Phy) (isIdle : bool),
    senseRequestOk p d = true ->
    exists can d',
      canAnswerCSR (currentChannelSenseRequest d) p (set_isChannelIdle isIdle d)
        = Ok can (set_isChannelIdle isIdle d) /\
      setChannelIdleStatus isIdle p d = Ok tt d' /\
      isChannelIdle d' = isIdle /\
      if can then
        exists content,
          phyCalls d' =
            phyCalls d ++ [cancelScheduledMessage (fst (currentChannelSenseRequest d));
                           sendControlMsg (fst (currentChannelSenseRequest d)) content] /\
          fst (currentChannelSenseRequest d') = null /\
          forall isIdle' (p' : Phy),
            setChannelIdleStatus isIdle' p' d' = Ok tt (set_isChannelIdle isIdle' d')
      else d' = set_isChannelIdle isIdle d.
Proof.
  intros Hstart Hrun d.
  destruct (hostRun_inv h0 h (hostStart_inv h0 Hstart) Hrun)
    as ((_ & _ & _ & Hsub & Hpend) & _).
  split; [exact Hsub|]. split.
  - unfold pendingRequests. destruct (pending h) as [[r w]|].
    + destruct Hpend as (Hnn & Hcur & _). fold d in Hcur. rewrite Hcur.
      rewrite (eqb_null_false r Hnn). reflexivity.
    + fold d in Hpend. rewrite Hpend. reflexivity.
  - intros p isIdle. apply setChannelIdleStatus_flip.
Qed.

Lemma hostInv_wake_answers `{MU : MappingUtils} (h : Hosted) request t (p : Phy) :
  hostInv h ->
  pending h = Some (request, t) ->
  senseRequestOk p (decider h) = true ->
  exists d',
    handleChannelSenseRequest request p (decider h) = Ok (notAgain (decider h)) d' /\
    fst (currentChannelSenseRequest d') = null /\
    answeredRequests d' = answeredRequests (decider h) ++ [request].
Proof.
  intros (_ & _ & _ & _ & Hpend) E Hok. rewrite E in Hpend.
  destruct Hpend as (Hnn & Hcur & _ & obj & Hobj & _).
  unfold senseRequestOk in Hok. rewrite Hcur, (eqb_null_false request Hnn), Hobj in Hok.
  destruct (calculateRSSIMapping_ok _ _ null p Hok) as [m Hmap].
  rewrite (handleChannelSenseRequest_same request p (decider h) Hnn Hcur).
  rewrite <- Hcur in Hobj.
  rewrite (answerCSR_eq p (decider h) obj m Hobj (Hmap (decider h))).
  eexists. split; [reflexivity|]. split; [reflexivity|].
  destruct (answered_answeringCall obj
              (findMax m (snd (currentChannelSenseRequest (decider h))) (getSimTime p))
              (decider h)) as (_ & _ & new & content & Hnew & _ & Hmsg).
  rewrite (answeredRequests_app _ _ new Hnew), Hmsg, Hcur. reflexivity.
Qed.

(** C7. In a run with its host, take a sense request outstanding after some
    call, with its wake-up at [t], and the run continued for as long as the
    request is not answered.  When [canAnswerCSR] holds on the decider at
    some instant, it holds on the decider as it is later in the run at every
    later instant up to [t].  The request is still the outstanding one, no
    call has come later than [t] and none can come later than [t] while it is
    outstanding; the wake-up, when it is delivered and the request can be
    read, answers it and returns [notAgain].  Between calls the mode of an
    outstanding request is not fulfilled, so [canAnswerCSR] holds at [t] and
    at no other instant. *)
Theorem canAnswerCSR_holds_until_answered `{MU : MappingUtils} `{DH : !DeciderHeader}
  (h0 h h' : Hosted) (request : ptr) (t : simtime_t) (p p' : Phy) :
  hostStart h0 ->
  hostRun h0 h ->
  hostRun h h' ->
  pending h = Some (request, t) ->
  answeredRequests (decider h') = answeredRequests (decider h) ->
  getSimTime p <= getSimTime p' ->
  getSimTime p' <= t ->
  canAnswerCSR (currentChannelSenseRequest (decider h)) p (decider h)
    = Ok true (decider h) ->
  canAnswerCSR (currentChannelSenseRequest (decider h')) p' (decider h')
    = Ok true (decider h') /\
  pending h' = Some (request, t) /\
  clock h' <= t /\
  (forall h'', hostStep h' h'' -> clock h'' <= t) /\
  (forall wake : Phy,
     senseRequestOk wake (decider h') = true ->
     exists d'',
       handleChannelSenseRequest request wake (decider h')
         = Ok (notAgain (decider h')) d'' /\
       fst (currentChannelSenseRequest d'') = null /\
       answeredRequests d'' = answeredRequests (decider h') ++ [request]) /\
  forall q : Phy,
    canAnswerCSR (currentChannelSenseRequest (decider h')) q (decider h')
    = Ok (Z.eqb (getSimTime q) t) (decider h').
Proof.
  intros Hstart Hrun Hrun' Hpend Hans Hle Hle' Hcan.
  destruct (hostRun_inv h0 h (hostStart_inv h0 Hstart) Hrun) as (Hinv & _).
  destruct (hostRun_inv h h' Hinv Hrun') as (Hinv' & _ & more & Hmore & Hsame).
  assert (Hnil : more = []).
  { rewrite Hans in Hmore. apply (f_equal (@List.length _)) in Hmore.
    rewrite length_app in Hmore. destruct more; [reflexivity|simpl in Hmore; lia]. }
  pose proof (Hsame Hnil _ Hpend) as Hpend'.
  rewrite (hostInv_canAnswerCSR h request t p Hinv Hpend) in Hcan.
  injection Hcan as Hcan. apply Z.eqb_eq in Hcan.
  split; [|split; [exact Hpend'|split; [|split; [|split]]]].
  - rewrite (hostInv_canAnswerCSR h' request t p' Hinv' Hpend').
    f_equal. apply Z.eqb_eq. lia.
  - destruct Hinv' as (_ & _ & _ & _ & Hp). rewrite Hpend' in Hp.
    destruct Hp as (_ & _ & Hc & _). exact Hc.
  - intros h'' Hstep. apply (hostStep_clock h' h'' request t Hstep Hpend').
  - intros wake. apply (hostInv_wake_answers h' request t wake Hinv' Hpend').
  - intros q. apply (hostInv_canAnswerCSR h' request t q Hinv' Hpend').
Qed.

(** ** Instances of the statements on whole calls *)

Lemma run_to_receivingA_sensing : calls fresh receivingA_sensing.
Proof.
  apply (calls_more fresh receivingA).
  - apply (calls_more fresh fresh).
    + apply calls_none.
    + apply (call_processSignal (phyAt 0 [1%N]) 1%N fresh).
  - apply (call_handleChannelSenseRequest (phyAt 0 [1%N]) 8%N receivingA).
Defined.

Lemma receptionInv_receivingA_sensing : receptionInv receivingA_sensing.
Proof. intros _. vm_compute. reflexivity. Defined.

Lemma occupancy_tracks_reception_witness :
  isChannelIdle receivingA_sensing = N.eqb (fst (currentSignal receivingA_sensing)) null.
Proof.
  apply (occupancy_tracks_reception fresh receivingA_sensing);
    [by_run | by_run | exact run_to_receivingA_sensing].
Defined.

Lemma calls_keep_configuration_witness :
  sensitivity receivingA_sensing = sensitivity fresh /\
  notAgain receivingA_sensing = notAgain fresh /\
  (exists new, phyCalls receivingA_sensing = phyCalls fresh ++ new) /\
  (forall r, requestKind <$> requests receivingA_sensing !! r
             = requestKind <$> requests fresh !! r).
Proof.
  apply (calls_keep_configuration fresh receivingA_sensing);
    [by_run | exact run_to_receivingA_sensing].
Defined.

Lemma sendUp_only_current_reception_witness :
  exists new,
    phyCalls (final (processSignal 1%N (phyAt 10 [1%N]) receivingA_sensing))
      = phyCalls receivingA_sensing ++ new /\
    (sendUps new = [] \/
     (fst (currentSignal receivingA_sensing) <> null /\
      sendUps new = [(fst (currentSignal receivingA_sensing), mkDeciderResult true)] /\
      fst (currentSignal (final (processSignal 1%N (phyAt 10 [1%N]) receivingA_sensing)))
        = null)).
Proof.
  apply (sendUp_only_current_reception receivingA_sensing
           (final (processSignal 1%N (phyAt 10 [1%N]) receivingA_sensing))
           receptionInv_receivingA_sensing).
  apply (call_processSignal (phyAt 10 [1%N]) 1%N receivingA_sensing).
Defined.

Lemma at_most_one_answer_witness :
  exists new,
    phyCalls (final (processSignal 1%N (phyAt 10 [1%N]) receivingA_sensing))
      = phyCalls receivingA_sensing ++ new /\
    (controlMsgs new = [] \/
     exists r content,
       r <> null /\
       controlMsgs new = [(r, content)] /\
       fst (currentChannelSenseRequest
              (final (processSignal 1%N (phyAt 10 [1%N]) receivingA_sensing))) = null /\
       requests (final (processSignal 1%N (phyAt 10 [1%N]) receivingA_sensing)) !! r
         = Some content /\
       isIdle (getResult content)
         = isChannelIdle (final (processSignal 1%N (phyAt 10 [1%N]) receivingA_sensing))).
Proof.
  apply (at_most_one_answer receivingA_sensing
           (final (processSignal 1%N (phyAt 10 [1%N]) receivingA_sensing))
           receptionInv_receivingA_sensing).
  apply (call_processSignal (phyAt 10 [1%N]) 1%N receivingA_sensing).
Defined.

Lemma cancel_only_outstanding_request_witness :
  exists new,
    phyCalls (final (processSignal 1%N (phyAt 10 [1%N]) receivingA_sensing))
      = phyCalls receivingA_sensing ++ new /\
    (cancels new = [] \/
     (fst (currentChannelSenseRequest receivingA_sensing) <> null /\
      cancels new = [fst (currentChannelSenseRequest receivingA_sensing)])).
Proof.
  apply (cancel_only_outstanding_request receivingA_sensing
           (final (processSignal 1%N (phyAt 10 [1%N]) receivingA_sensing))
           receptionInv_receivingA_sensing).
  apply (call_processSignal (phyAt 10 [1%N]) 1%N receivingA_sensing).
Defined.

Lemma handleChannelSenseRequest_new_request_witness :
  (exists rssiMap,
     calculateRSSIMapping 0 0 null (phyAt 0 []) fresh = Ok rssiMap fresh /\
     handleChannelSenseRequest 8%N (phyAt 0 []) fresh =
     Ok (-1) (answered untilIdle (findMax rssiMap 0 0)
                (set_currentChannelSenseRequest (8%N, 0) fresh))) /\
  (exists rssiMap,
     calculateRSSIMapping 0 0 null (phyAt 0 []) fresh = Ok rssiMap fresh /\
     handleChannelSenseRequest 7%N (phyAt 0 []) fresh =
     Ok 10 (set_currentChannelSenseRequest (7%N, 0) fresh)).
Proof.
  split.
  - apply (handleChannelSenseRequest_new_request (phyAt 0 []) fresh 8%N untilIdle);
      [not_null | by_run | by_run | in_range | in_range | by_run].
  - apply (handleChannelSenseRequest_new_request (phyAt 0 []) fresh 7%N untilBusy);
      [not_null | by_run | by_run | in_range | in_range | by_run].
Defined.

Lemma early_answer_reports_requested_state_witness :
  true = true /\
  exists rssiValue,
    let d' :=
      answered untilIdle rssiValue
        (call_phy (cancelScheduledMessage 8%N)
           (set_isChannelIdle true receivingA_sensing)) in
    setChannelIdleStatus true (phyAt 4 [1%N]) receivingA_sensing = Ok tt d' /\
    getResult <$> requests d' !! 8%N =
      Some (mkChannelState true (clampNegative rssiValue)).
Proof.
  apply (early_answer_reports_requested_state
           (phyAt 4 [1%N]) receivingA_sensing true untilIdle);
    [not_null | by_run | not_null | by_run].
Defined.

Lemma exclusion_is_absence_witness :
  calculateRSSIMapping 0 10 1%N (phyAt 0 [1%N; 2%N]) fresh =
  calculateRSSIMapping 0 10 null (withoutFrame 1%N (phyAt 0 [1%N; 2%N])) fresh.
Proof.
  apply (exclusion_is_absence (phyAt 0 [1%N; 2%N]) fresh 0 10 1%N). not_null.
Defined.

Lemma calculateRSSIMapping_sums_in_order_witness :
  calculateRSSIMapping 0 10 1%N (phyAt 0 [1%N; 2%N; 3%N]) fresh =
  Ok (addOutOfRange (constantPower 5 5%float)
        (addOutOfRange (constantPower 0 (-95)%float) (createMapping 0%float) 0%float)
        0%float) fresh.
Proof.
  apply (calculateRSSIMapping_sums_in_order (phyAt 0 [1%N; 2%N; 3%N]) fresh 0 10 1%N).
  by_run.
Defined.

Lemma calculateSnrMapping_ignores_own_listing_witness :
  calculateSnrMapping 1%N (phyAt 0 [1%N; 2%N]) fresh =
  calculateSnrMapping 1%N (withoutFrame 1%N (phyAt 0 [1%N; 2%N])) fresh.
Proof.
  apply (calculateSnrMapping_ignores_own_listing (phyAt 0 [1%N; 2%N]) fresh 1%N).
  not_null.
Defined.

Lemma calculateSnrMapping_divides_by_interference_witness :
  calculateSnrMapping 1%N (phyAt 0 [1%N; 2%N]) fresh =
  Ok (divide (constantPower 0 (-85)%float)
        (addOutOfRange (constantPower 0 (-95)%float) (createMapping 0%float) 0%float)
        0%float) fresh.
Proof.
  apply (calculateSnrMapping_divides_by_interference
           (phyAt 0 [1%N; 2%N]) fresh 1%N frameA (constantPower 0 (-85)%float));
    by_run.
Defined.

Lemma reception_round_trip_witness :
  processSignal 1%N (phyAt 0 [1%N]) fresh =
    Ok 10 (set_isChannelIdle false (set_currentSignal (1%N, EXPECT_END) fresh)) /\
  processSignal 1%N (phyAt 10 [1%N])
    (set_isChannelIdle false (set_currentSignal (1%N, EXPECT_END) fresh)) =
    Ok (-1)
       (call_phy (sendUp 1%N (mkDeciderResult true))
          (set_isChannelIdle true (set_currentSignal (null, EXPECT_END) fresh))).
Proof.
  apply (reception_round_trip (phyAt 0 [1%N]) (phyAt 10 [1%N]) fresh 1%N frameA
           (constantPower 0 (-85)%float));
    [not_null | by_run | by_run | by_run | by_run | by_run].
Defined.

Lemma sense_request_timeout_cycle_witness :
  exists rssiMap,
    handleChannelSenseRequest 8%N (phyAt 0 [1%N]) receivingA
      = Ok 10 (set_currentChannelSenseRequest (8%N, 0) receivingA) /\
    calculateRSSIMapping 0 10 null (phyAt 10 [1%N])
      (set_currentChannelSenseRequest (8%N, 0) receivingA)
      = Ok rssiMap (set_currentChannelSenseRequest (8%N, 0) receivingA) /\
    handleChannelSenseRequest 8%N (phyAt 10 [1%N])
      (set_currentChannelSenseRequest (8%N, 0) receivingA)
      = Ok (-1)
           (answered untilIdle (findMax rssiMap 0 10)
              (set_currentChannelSenseRequest (8%N, 0) receivingA)).
Proof.
  apply (sense_request_timeout_cycle (phyAt 0 [1%N]) (phyAt 10 [1%N]) receivingA
           8%N untilIdle);
    [not_null | by_run | by_run | by_run | not_null | in_range | in_range | by_run].
Defined.

(** ** Instances of the statements on hosted runs *)

Import HostedExample.

Lemma hostStart_hostFresh : hostStart hostFresh.
Proof.
  repeat split; try reflexivity; vm_compute; discriminate.
Defined.

Lemma run_to_hostSensing : hostRun hostFresh hostSensing.
Proof.
  apply (hostRun_more hostFresh hostReceiving).
  - apply (hostRun_more hostFresh hostFresh).
    + apply hostRun_none.
    + apply (host_frame hostFresh hostReceiving (phyAt 0 [1%N]) 1%N 10); by_run.
  - apply (host_request hostReceiving hostSensing (phyAt 0 [1%N]) 8%N 10); by_run.
Defined.

Lemma run_hostSensing_later : hostRun hostSensing hostSensingLater.
Proof.
  apply (hostRun_more hostSensing hostSensing).
  - apply hostRun_none.
  - apply (host_getChannelState hostSensing hostSensingLater (phyAt 5 [1%N])
             (mkChannelState false (-85)%float)); by_run.
Defined.

Lemma run_to_hostAnswered : hostRun hostFresh hostAnswered.
Proof.
  apply (hostRun_more hostFresh hostSensing).
  - exact run_to_hostSensing.
  - apply (host_frame hostSensing hostAnswered (phyAt 10 [1%N]) 1%N (-1)); by_run.
Defined.

Lemma sense_request_answered_once_witness :
  submitted hostAnswered
  = answeredRequests (decider hostAnswered) ++ pendingRequests hostAnswered /\
  pendingRequests hostAnswered
  = (if N.eqb (fst (currentChannelSenseRequest (decider hostAnswered))) null then []
     else [fst (currentChannelSenseRequest (decider hostAnswered))]).
Proof.
  pose proof (sense_request_answered_once hostFresh hostAnswered
                hostStart_hostFresh run_to_hostAnswered) as (H1 & H2 & _).
  split; [exact H1|exact H2].
Defined.

Lemma canAnswerCSR_holds_until_answered_witness :
  canAnswerCSR (currentChannelSenseRequest (decider hostSensingLater)) (phyAt 10 [1%N])
    (decider hostSensingLater)
  = Ok true (decider hostSensingLater) /\
  pending hostSensingLater = Some (8%N, 10).
Proof.
  pose proof (canAnswerCSR_holds_until_answered
                hostFresh hostSensing hostSensingLater 8%N 10
                (phyAt 10 [1%N]) (phyAt 10 [1%N])
                hostStart_hostFresh run_to_hostSensing run_hostSensing_later
                eq_refl eq_refl) as H.
  destruct H as (H1 & H2 & _).
  - vm_compute. discriminate.
  - vm_compute. discriminate.
  - by_run.
  - split; [exact H1|exact H2].
Defined.

(** * TraCIScenarioManager.cc *)

Module TraCIProperties.
Import TraCI.

(** ** Strings *)

Lemma append_nil (t : string) : String.append "" t = t.
Proof. reflexivity. Qed.

Lemma append_cons (a : ascii) (s t : string) :
  String.append (String a s) t = String a (String.append s t).
Proof. reflexivity. Qed.

Lemma find_skip (s t : string) (c : ascii) (k : nat) :
  find (String.append s t) c (String.length s + k) =
  option_map (fun n => String.length s + n)%nat (find t c k).
Proof.
  induction s as [|a s IH].
  - rewrite append_nil. simpl. destruct (find t c k); reflexivity.
  - rewrite append_cons. simpl. rewrite IH. destruct (find t c k); reflexivity.
Qed.

Lemma find_without (s t : string) (c : ascii) :
  without c s = true ->
  find (String.append s t) c 0 =
  option_map (fun n => String.length s + n)%nat (find t c 0).
Proof.
  induction s as [|a s IH]; intros Hs.
  - rewrite append_nil. simpl. destruct (find t c 0); reflexivity.
  - rewrite append_cons. simpl in *.
    apply andb_true_iff in Hs as [Ha Hs].
    destruct (Ascii.eqb a c); [discriminate Ha|].
    rewrite (IH Hs). destruct (find t c 0); reflexivity.
Qed.

Lemma find_here (t : string) (c : ascii) : find (String c t) c 0 = Some O.
Proof. simpl. rewrite Ascii.eqb_refl. reflexivity. Qed.

Lemma substr_skip (s t : string) (k m : nat) :
  substr (String.append s t) (String.length s + k) m = substr t k m.
Proof.
  unfold substr. induction s as [|a s IH].
  - reflexivity.
  - rewrite append_cons. simpl. exact IH.
Qed.

Lemma substr_prefix (s t : string) :
  substr (String.append s t) 0 (String.length s) = s.
Proof.
  unfold substr. induction s as [|a s IH].
  - rewrite append_nil. simpl. destruct t; reflexivity.
  - rewrite append_cons. simpl. rewrite IH. reflexivity.
Qed.

Lemma length_append (s t : string) :
  String.length (String.append s t) = (String.length s + String.length t)%nat.
Proof.
  induction s as [|a s IH].
  - reflexivity.
  - rewrite append_cons. simpl. rewrite IH. reflexivity.
Qed.

Lemma protectedMapping_eq (type value : string) :
  protectedMapping type value =
  String.append type
    (String equalSign (String protection (String.append value (String protection "")))).
Proof. reflexivity. Qed.

Section Mappings.
Context `{TK : StringTokenizer}.

(** ** getMapping *)

Lemma getMapping_protected (type value : string) :
  without protection type = true ->
  without equalSign type = true ->
  without protection value = true ->
  getMapping (protectedMapping type value) = Returned [type; value].
Proof.
  intros Htq Hte Hvq. unfold getMapping. rewrite protectedMapping_eq.
  set (closing := String protection "").
  set (tail := String equalSign (String protection (String.append value closing))).
  assert (Hfirst : find (String.append type tail) protection 0
                   = Some (String.length type + 1)%nat).
  { rewrite (find_without type tail protection Htq). reflexivity. }
  rewrite Hfirst.
  assert (Hsecond : find (String.append type tail) protection (String.length type + 1 + 1)
                    = Some (String.length type + (2 + String.length value))%nat).
  { replace (String.length type + 1 + 1)%nat with (String.length type + 2)%nat by lia.
    rewrite find_skip.
    change (find tail protection 2)
      with (option_map S (option_map S (find (String.append value closing) protection 0))).
    rewrite (find_without value closing protection Hvq).
    change (find closing protection 0) with (Some O).
    simpl. f_equal. lia. }
  rewrite Hsecond.
  assert (Hlen : String.length (String.append type tail)
                 = (String.length type + (2 + String.length value) + 1)%nat).
  { rewrite length_append. subst tail. simpl. rewrite length_append. simpl. lia. }
  rewrite Hlen.
  replace (String.length type + (2 + String.length value) + 1 - 1)%nat
    with (String.length type + (2 + String.length value))%nat by lia.
  rewrite Nat.eqb_refl. cbv beta iota delta [negb].
  replace (Nat.eqb (String.length type + 1) 0) with false
    by (symmetry; apply Nat.eqb_neq; lia).
  assert (Heq : find (String.append type tail) equalSign 0 = Some (String.length type)).
  { rewrite (find_without type tail equalSign Hte).
    change (find tail equalSign 0) with (Some O).
    simpl. f_equal. lia. }
  rewrite Heq.
  replace (String.length type + 1 - 1)%nat with (String.length type) by lia.
  rewrite Nat.eqb_refl. cbv beta iota delta [negb].
  rewrite substr_prefix.
  replace (String.length type + (2 + String.length value) - (String.length type + 1) - 1)%nat
    with (String.length value) by lia.
  replace (String.length type + 1 + 1)%nat with (String.length type + 2)%nat by lia.
  rewrite substr_skip. subst tail.
  change (substr (String equalSign (String protection (String.append value closing)))
            2 (String.length value))
    with (substr (String.append value closing) 0 (String.length value)).
  rewrite substr_prefix. reflexivity.
Qed.


Lemma getMapping_protected_value (value : string) :
  without protection value = true ->
  getMapping (String protection (String.append value (String protection "")))
  = Returned [value].
Proof.
  intros Hvq. unfold getMapping.
  set (closing := String protection "").
  rewrite find_here.
  change (find (String protection (String.append value closing)) protection (0 + 1))
    with (option_map S (find (String.append value closing) protection 0)).
  rewrite (find_without value closing protection Hvq).
  change (find closing protection 0) with (Some O). simpl option_map.
  change (String.length (String protection (String.append value closing)))
    with (S (String.length (String.append value closing))).
  rewrite length_append. change (String.length closing) with 1%nat.
  replace (S (String.length value + 1) - 1)%nat with (S (String.length value + 0))
    by lia.
  rewrite Nat.eqb_refl. cbv beta iota delta [negb].
  change (Nat.eqb 0 0) with true. cbv beta iota.
  replace (S (String.length value + 0) - 0 - 1)%nat with (String.length value) by lia.
  change (substr (String protection (String.append value closing)) (0 + 1)
            (String.length value))
    with (substr (String.append value closing) 0 (String.length value)).
  rewrite substr_prefix. reflexivity.
Qed.

(** X16. Writing and reading back a protected mapping: for a type without
    quote and equal sign and a value without quote, [getMapping] of
    [type='value'] is the pair (type, value), and [getMapping] of ['value']
    is the value alone, whatever the value holds otherwise (equal signs,
    blanks) and without asking the tokenizer. *)
Theorem getMapping_protected_round_trip (type value : string) :
  without protection type = true ->
  without equalSign type = true ->
  without protection value = true ->
  getMapping (protectedMapping type value) = Returned [type; value] /\
  getMapping (String protection (String.append value (String protection "")))
    = Returned [value].
Proof.
  intros Htq Hte Hvq. split.
  - apply getMapping_protected; assumption.
  - apply getMapping_protected_value. exact Hvq.
Qed.

(** ** parseMappings *)

Lemma parseMappingsLoop_distinct size (pairs : list (string * string))
  (map : gmap string string) :
  Forall protectable pairs ->
  NoDup (pairs.*1) ->
  (forall kv, kv ∈ pairs -> map !! fst kv = None) ->
  parseMappingsLoop size (List.map written pairs) map
  = Returned (list_to_map pairs ∪ map).
Proof.
  revert map. induction pairs as [|[k v] pairs IH]; intros map Hwf Hnd Hfresh.
  - simpl. rewrite (left_id_L ∅ (∪)). reflexivity.
  - inversion Hwf as [|? ? (Hkq & Hke & Hvq) Hwf']; subst.
    inversion Hnd as [|? ? Hk Hnd']; subst.
    simpl. unfold written at 1. simpl fst. simpl snd.
    rewrite (getMapping_protected k v Hkq Hke Hvq).
    pose proof (Hfresh (k, v) ltac:(left)) as Hk0. simpl in Hk0.
    rewrite Hk0.
    rewrite IH; [| exact Hwf' | exact Hnd' |].
    + f_equal. rewrite <- insert_union_l.
      symmetry. apply insert_union_r.
      apply not_elem_of_list_to_map_1. exact Hk.
    + intros kv Hin.
      rewrite lookup_insert_ne.
      * apply Hfresh. right. exact Hin.
      * intros E. apply Hk. rewrite E. apply list_elem_of_fmap. exists kv. auto.
Qed.

Lemma parseMappingsLoop_clash size (pairs : list (string * string))
  (map : gmap string string) :
  Forall protectable pairs ->
  (exists kv, kv ∈ pairs /\ is_Some (map !! fst kv)) \/ ~ NoDup (pairs.*1) ->
  parseMappingsLoop size (List.map written pairs) map = cRuntimeError.
Proof.
  revert map. induction pairs as [|[k v] pairs IH]; intros map Hwf Hbad.
  - destruct Hbad as [(kv & Hin & _)|Hdup].
    + inversion Hin.
    + contradiction Hdup. constructor.
  - inversion Hwf as [|? ? (Hkq & Hke & Hvq) Hwf']; subst.
    simpl. unfold written at 1. simpl fst. simpl snd.
    rewrite (getMapping_protected k v Hkq Hke Hvq).
    destruct (map !! k) as [old|] eqn:Hk; [reflexivity|].
    apply IH; [exact Hwf'|].
    destruct Hbad as [(kv & Hin & [w Hw])|Hdup].
    + apply elem_of_cons in Hin as [->|Hin].
      * simpl in Hw. rewrite Hk in Hw. discriminate Hw.
      * left. exists kv. split; [exact Hin|].
        destruct (decide (k = fst kv)) as [->|Hne].
        -- rewrite lookup_insert_eq. eexists. reflexivity.
        -- rewrite lookup_insert_ne by exact Hne. exists w. exact Hw.
    + destruct (decide (k ∈ pairs.*1)) as [Hin|Hnin].
      * left. apply list_elem_of_fmap in Hin as (kv & -> & Hin).
        exists kv. split; [exact Hin|]. rewrite lookup_insert_eq. eexists. reflexivity.
      * right. intros Hnd. apply Hdup. simpl. constructor; assumption.
Qed.


(** X17. When the parameter splits into protected mappings with pairwise
    different types, [parseMappings] returns the map that holds exactly
    these (type, value) pairs. *)
Theorem parseMappings_protected_round_trip
  (parameter parameterName : string) (allowEmpty : bool)
  (pairs : list (string * string)) :
  asVector parameter " " = List.map written pairs ->
  pairs <> [] ->
  Forall protectable pairs ->
  NoDup (pairs.*1) ->
  parseMappings parameter parameterName allowEmpty = Returned (list_to_map pairs).
Proof.
  intros Htok Hne Hwf Hnd. unfold parseMappings. rewrite Htok.
  destruct pairs as [|kv pairs]; [contradiction|].
  change (Nat.eqb (List.length (List.map written (kv :: pairs))) 0) with false.
  cbv beta iota.
  rewrite (parseMappingsLoop_distinct _ (kv :: pairs) ∅ Hwf Hnd).
  - rewrite (right_id_L ∅ (∪)). reflexivity.
  - intros ? _. apply lookup_empty.
Qed.

(** X18. When the parameter splits into protected mappings two of which
    have the same type, [parseMappings] throws: a type is never silently
    overwritten. *)
Theorem parseMappings_duplicate_type
  (parameter parameterName : string) (allowEmpty : bool)
  (pairs : list (string * string)) :
  asVector parameter " " = List.map written pairs ->
  Forall protectable pairs ->
  ~ NoDup (pairs.*1) ->
  parseMappings parameter parameterName allowEmpty = cRuntimeError.
Proof.
  intros Htok Hwf Hdup. unfold parseMappings. rewrite Htok.
  destruct pairs as [|kv pairs]; [contradiction Hdup; constructor|].
  change (Nat.eqb (List.length (List.map written (kv :: pairs))) 0) with false.
  cbv beta iota.
  apply (parseMappingsLoop_clash _ (kv :: pairs) ∅ Hwf). right. exact Hdup.
Qed.


(** ** parseModuleTypes *)

Lemma size_intersection_eq (A B : gset string) :
  Nat.eqb (size (A ∩ B)) (size B) = true <-> B ⊆ A.
Proof.
  rewrite Nat.eqb_eq. split.
  - intros Hsize.
    assert (E : A ∩ B = B).
    { apply set_subseteq_size_eq; [apply intersection_subseteq_r|lia]. }
    rewrite <- E. apply intersection_subseteq_l.
  - intros Hsub. f_equal. rewrite (comm_L (∩) A B).
    apply subseteq_intersection_1_L. exact Hsub.
Qed.

Lemma checkModuleTypes_accepts_iff
  (moduleType moduleName moduleDisplayString : gmap string string) :
  checkModuleTypes moduleType moduleName moduleDisplayString = Returned tt <->
  dom moduleType = dom moduleName /\ dom moduleDisplayString ⊆ dom moduleType.
Proof.
  unfold checkModuleTypes.
  set (T := dom moduleType). set (N := dom moduleName).
  set (D := dom moduleDisplayString).
  pose proof (size_intersection_eq T N) as HN.
  pose proof (size_intersection_eq N T) as HT.
  rewrite (comm_L (∩) N T) in HT.
  pose proof (size_intersection_eq T D) as HD.
  destruct (Nat.eqb (size (T ∩ N)) (size T)) eqn:E1;
    destruct (Nat.eqb (size (T ∩ N)) (size N)) eqn:E2; simpl.
  - assert (HTN : T = N).
    { apply set_eq. intros k. split; intros Hk.
      - apply (proj1 HT eq_refl). exact Hk.
      - apply (proj1 HN eq_refl). exact Hk. }
    destruct (Nat.eqb (size D) 0) eqn:E3.
    + apply Nat.eqb_eq in E3. apply size_empty_inv in E3.
      split; [intros _; split; [exact HTN|]|reflexivity].
      intros k Hk. apply E3 in Hk. apply elem_of_empty in Hk. contradiction.
    + destruct (Nat.eqb (size (T ∩ D)) (size D)) eqn:E4; simpl.
      * split; [intros _; split; [exact HTN|apply HD; reflexivity]|reflexivity].
      * split; [discriminate|].
        intros [_ Hsub]. apply HD in Hsub. discriminate Hsub.
  - split; [discriminate|]. intros [Heq _].
    assert (N ⊆ T) as Hsub by (rewrite Heq; reflexivity).
    apply HN in Hsub. discriminate Hsub.
  - split; [discriminate|]. intros [Heq _].
    assert (T ⊆ N) as Hsub by (rewrite Heq; reflexivity).
    apply HT in Hsub. discriminate Hsub.
  - split; [discriminate|]. intros [Heq _].
    assert (N ⊆ T) as Hsub by (rewrite Heq; reflexivity).
    apply HN in Hsub. discriminate Hsub.
Qed.

(** X20. [parseModuleTypes] returns exactly when the three parameters parse
    (the display strings may be empty), the module types and the module
    names are given for the same vehicle types, and every vehicle type with
    a display string has a module type; a vehicle type may lack a display
    string. *)
Theorem parseModuleTypes_returns_iff
  (moduleTypes moduleNames moduleDisplayStrings : string)
  (moduleType moduleName moduleDisplayString : gmap string string) :
  parseModuleTypes moduleTypes moduleNames moduleDisplayStrings
    = Returned (moduleType, moduleName, moduleDisplayString) <->
  parseMappings moduleTypes "moduleType" false = Returned moduleType /\
  parseMappings moduleNames "moduleName" false = Returned moduleName /\
  parseMappings moduleDisplayStrings "moduleDisplayString" true
    = Returned moduleDisplayString /\
  dom moduleType = dom moduleName /\
  dom moduleDisplayString ⊆ dom moduleType.
Proof.
  unfold parseModuleTypes.
  destruct (parseMappings moduleTypes "moduleType" false) as [t|];
    [|split; [discriminate|intros (H & _); discriminate H]].
  destruct (parseMappings moduleNames "moduleName" false) as [n|];
    [|split; [discriminate|intros (_ & H & _); discriminate H]].
  destruct (parseMappings moduleDisplayStrings "moduleDisplayString" true) as [ds|];
    [|split; [discriminate|intros (_ & _ & H & _); discriminate H]].
  pose proof (checkModuleTypes_accepts_iff t n ds) as Hcheck.
  destruct (checkModuleTypes t n ds) as [[]|].
  - split.
    + intros H. injection H as <- <- <-.
      destruct (proj1 Hcheck eq_refl) as [H1 H2]. repeat split; assumption.
    + intros (H1 & H2 & H3 & _). injection H1 as <-. injection H2 as <-.
      injection H3 as <-. reflexivity.
  - split; [discriminate|].
    intros (H1 & H2 & H3 & H4 & H5). injection H1 as <-. injection H2 as <-.
    injection H3 as <-.
    pose proof (proj2 Hcheck (conj H4 H5)) as H. discriminate H.
Qed.

End Mappings.

(** ** isInRegionOfInterest *)

Lemma onRoiRoad_elem (road_id : string) (roiRoads : list string) :
  onRoiRoad road_id roiRoads = true <-> road_id ∈ roiRoads.
Proof.
  induction roiRoads as [|i rest IH]; simpl.
  - split; [discriminate|]. intros H. inversion H.
  - destruct (String.eqb_spec road_id i) as [->|Hne].
    + split; [intros _; left|reflexivity].
    + rewrite IH. rewrite elem_of_cons. tauto.
Qed.

Lemma inRoiRect_exists (position : TraCICoord) (roiRects : list (TraCICoord * TraCICoord)) :
  inRoiRect position roiRects = true <->
  exists rect, rect ∈ roiRects /\ contains rect position = true.
Proof.
  induction roiRects as [|i rest IH]; simpl.
  - split; [discriminate|]. intros (rect & H & _). inversion H.
  - fold (contains i position). destruct (contains i position) eqn:E.
    + split; [intros _; exists i; split; [left|exact E]|reflexivity].
    + rewrite IH. split.
      * intros (rect & Hin & Hc). exists rect. split; [right; exact Hin|exact Hc].
      * intros (rect & Hin & Hc). apply elem_of_cons in Hin as [->|Hin].
        -- rewrite E in Hc. discriminate Hc.
        -- exists rect. split; assumption.
Qed.

(** X21. A position is in the region of interest exactly when no region is
    configured at all, or its road is one of [roiRoads], or one of the
    rectangles of [roiRects] contains it, borders included; speed and angle
    play no part. *)
Theorem isInRegionOfInterest_iff
  (roiRoads : list string) (roiRects : list (TraCICoord * TraCICoord))
  (position : TraCICoord) (road_id : string) (speed angle : double) :
  isInRegionOfInterest roiRoads roiRects position road_id speed angle = true <->
  (roiRoads = [] /\ roiRects = []) \/
  road_id ∈ roiRoads \/
  exists rect, rect ∈ roiRects /\ contains rect position = true.
Proof.
  unfold isInRegionOfInterest.
  rewrite <- onRoiRoad_elem, <- inRoiRect_exists.
  assert (Ha : roiRoads = [] -> onRoiRoad road_id roiRoads = false)
    by (intros ->; reflexivity).
  assert (Hb : roiRects = [] -> inRoiRect position roiRects = false)
    by (intros ->; reflexivity).
  destruct (onRoiRoad road_id roiRoads), (inRoiRect position roiRects);
    destruct roiRoads as [|r roads], roiRects as [|q rects]; simpl;
    intuition (try discriminate; try congruence).
Qed.


Lemma leb_nan (a q : double) :
  PrimFloat.eqb q q = false ->
  PrimFloat.leb a q = false /\ PrimFloat.leb q a = false.
Proof.
  rewrite FloatAxioms.eqb_spec, !FloatAxioms.leb_spec. unfold SFeqb, SFleb.
  destruct (Prim2SF q) as [s|s| |s m e]; simpl.
  - discriminate.
  - destruct s; discriminate.
  - intros _. split; [destruct (Prim2SF a); reflexivity|reflexivity].
  - destruct s; rewrite Z.compare_refl, Pos.compare_cont_refl; discriminate.
Qed.

Lemma contains_nan (rect : TraCICoord * TraCICoord) (position : TraCICoord) :
  PrimFloat.eqb (x position) (x position) = false \/
  PrimFloat.eqb (y position) (y position) = false ->
  contains rect position = false.
Proof.
  unfold contains. intros [Hx|Hy].
  - rewrite (proj1 (leb_nan (x (fst rect)) (x position) Hx)). reflexivity.
  - rewrite (proj1 (leb_nan (y (fst rect)) (y position) Hy)).
    rewrite andb_false_r. reflexivity.
Qed.

(** X22. With a region configured, a position one of whose coordinates is
    not a number is in no rectangle: it is in the region only through its
    road. *)
Theorem isInRegionOfInterest_nan_position
  (roiRoads : list string) (roiRects : list (TraCICoord * TraCICoord))
  (position : TraCICoord) (road_id : string) (speed angle : double) :
  roiRoads <> [] \/ roiRects <> [] ->
  road_id ∉ roiRoads ->
  PrimFloat.eqb (x position) (x position) = false \/
  PrimFloat.eqb (y position) (y position) = false ->
  isInRegionOfInterest roiRoads roiRects position road_id speed angle = false.
Proof.
  intros Hroi Hroad Hnan. unfold isInRegionOfInterest.
  assert (Ha : onRoiRoad road_id roiRoads = false).
  { destruct (onRoiRoad road_id roiRoads) eqn:E; [|reflexivity].
    apply onRoiRoad_elem in E. contradiction. }
  assert (Hb : inRoiRect position roiRects = false).
  { destruct (inRoiRect position roiRects) eqn:E; [|reflexivity].
    apply inRoiRect_exists in E as (rect & _ & Hc).
    rewrite (contains_nan rect position Hnan) in Hc. discriminate Hc. }
  rewrite Ha, Hb, !andb_false_r.
  destruct roiRoads, roiRects; simpl; try reflexivity.
  destruct Hroi as [E|E]; contradiction E; reflexivity.
Qed.

(** X23. Adding roads or rectangles to a configured region never takes a
    position out of it. *)
Theorem isInRegionOfInterest_extension
  (roiRoads moreRoads : list string)
  (roiRects moreRects : list (TraCICoord * TraCICoord))
  (position : TraCICoord) (road_id : string) (speed angle speed' angle' : double) :
  roiRoads <> [] \/ roiRects <> [] ->
  isInRegionOfInterest roiRoads roiRects position road_id speed angle = true ->
  isInRegionOfInterest (roiRoads ++ moreRoads) (roiRects ++ moreRects)
    position road_id speed' angle' = true.
Proof.
  intros Hroi. unfold isInRegionOfInterest.
  assert (Ha : onRoiRoad road_id roiRoads = true ->
               onRoiRoad road_id (roiRoads ++ moreRoads) = true).
  { rewrite !onRoiRoad_elem, elem_of_app. tauto. }
  assert (Hb : inRoiRect position roiRects = true ->
               inRoiRect position (roiRects ++ moreRects) = true).
  { rewrite !inRoiRect_exists. intros (rect & Hin & Hc).
    exists rect. rewrite elem_of_app. tauto. }
  destruct (onRoiRoad road_id roiRoads) eqn:Er.
  - rewrite (Ha eq_refl).
    destruct roiRoads as [|r roads]; [discriminate Er|]. intros _. reflexivity.
  - destruct (inRoiRect position roiRects) eqn:Ec.
    + rewrite (Hb eq_refl).
      destruct roiRects as [|q rects]; [discriminate Ec|]. intros _.
      simpl. rewrite andb_false_r.
      destruct (_ && _); reflexivity.
    + rewrite !andb_false_r.
      destruct roiRoads, roiRects; simpl; try discriminate.
      destruct Hroi as [E|E]; contradiction E; reflexivity.
Qed.

(** ** Instances *)

Lemma getMapping_protected_round_trip_witness :
  @getMapping runTokenizer "a='i=block/process'" = Returned ["a"; "i=block/process"] /\
  @getMapping runTokenizer "'i=block/process'" = Returned ["i=block/process"].
Proof.
  apply (@getMapping_protected_round_trip runTokenizer "a" "i=block/process");
    vm_compute; reflexivity.
Defined.

Lemma parseMappings_protected_round_trip_witness :
  @parseMappings runTokenizer "a='x' *='0'" "moduleType" false
  = Returned (list_to_map [("a", "x"); ("*", "0")]).
Proof.
  apply (@parseMappings_protected_round_trip runTokenizer
           "a='x' *='0'" "moduleType" false [("a", "x"); ("*", "0")]).
  - vm_compute. reflexivity.
  - discriminate.
  - repeat constructor.
  - apply (bool_decide_unpack _). vm_compute. exact I.
Defined.

Lemma parseMappings_duplicate_type_witness :
  @parseMappings runTokenizer "a='x' a='y'" "moduleType" false = cRuntimeError.
Proof.
  apply (@parseMappings_duplicate_type runTokenizer
           "a='x' a='y'" "moduleType" false [("a", "x"); ("a", "y")]).
  - vm_compute. reflexivity.
  - repeat constructor.
  - apply (bool_decide_unpack _). vm_compute. exact I.
Defined.


Lemma isInRegionOfInterest_nan_position_witness :
  isInRegionOfInterest ["road1"]
    [(mkTraCICoord 0%float 0%float, mkTraCICoord 10%float 10%float)]
    (mkTraCICoord PrimFloat.nan 5%float) "road2" 0%float 0%float = false.
Proof.
  apply isInRegionOfInterest_nan_position.
  - left. discriminate.
  - apply (bool_decide_unpack _). vm_compute. exact I.
  - left. vm_compute. reflexivity.
Defined.

Lemma isInRegionOfInterest_extension_witness :
  isInRegionOfInterest (["road1"] ++ ["road3"])
    ([(mkTraCICoord 0%float 0%float, mkTraCICoord 10%float 10%float)] ++ [])
    (mkTraCICoord 5%float 5%float) "road2" 1%float 1%float = true.
Proof.
  apply (isInRegionOfInterest_extension ["road1"] ["road3"]
           [(mkTraCICoord 0%float 0%float, mkTraCICoord 10%float 10%float)] []
           (mkTraCICoord 5%float 5%float) "road2" 0%float 0%float 1%float 1%float).
  - left. discriminate.
  - vm_compute. reflexivity.
Defined.

End TraCIProperties.
